(** * IEEE 802.11 frame dissection (pypacker, layer12/ieee80211.py)

    A shallow embedding of the frame-control accessors, of the dispatch key
    and the registry [decoder_dict_complete] built from the three decoder
    tables, and of the information-element loop [_unpack_ies], together
    with the properties the specification states about them.

    Python integers are unbounded: they are modelled by [Z], and the
    bit operators [&], [|], [~], [<<], [>>] by [Z.land], [Z.lor],
    [Z.lnot], [Z.shiftl], [Z.shiftr].  A [bytes] object is a [list byte];
    indexing it gives the integer value of the byte.  A Python [dict] that
    is only built by insertion and read by key is a [gmap]. *)

From Stdlib Require Import ZArith Lia.
From Stdlib.Strings Require Import Byte.
From stdpp Require Import gmap list strings.

Local Open Scope Z_scope.

(** ** Exceptions

    The exceptions the modelled code can raise.  A computation that can
    raise returns [result A]. *)

Inductive exn : Type :=
| IndexError
| StructError.

Inductive result (A : Type) : Type :=
| Ok (a : A)
| Raise (e : exn).

Arguments Ok {A} a.
Arguments Raise {A} e.

#[global] Instance result_ret : MRet result := fun A a => Ok a.

#[global] Instance result_bind : MBind result := fun A B k r =>
  match r with
  | Ok a => k a
  | Raise e => Raise e
  end.

#[global] Instance result_fmap : FMap result := fun A B f r =>
  match r with
  | Ok a => Ok (f a)
  | Raise e => Raise e
  end.

(** [l[i]] on a Python list: negative indices count from the end, anything
    outside [-len, len) raises [IndexError]. *)
Definition py_getitem {A : Type} (l : list A) (i : Z) : result A :=
  let n := Z.of_nat (length l) in
  let j := if i <? 0 then i + n else i in
  if (0 <=? j) && (j <? n)
  then match l !! Z.to_nat j with
       | Some a => Ok a
       | None => Raise IndexError
       end
  else Raise IndexError.

(** ** Frame-control constants *)

Definition MGMT_TYPE : Z := 0.
Definition CTL_TYPE : Z := 1.
Definition DATA_TYPE : Z := 2.

Definition M_ASSOC_REQ : Z := 0.
Definition M_ASSOC_RESP : Z := 1.
Definition M_REASSOC_REQ : Z := 2.
Definition M_REASSOC_RESP : Z := 3.
Definition M_PROBE_REQ : Z := 4.
Definition M_PROBE_RESP : Z := 5.
Definition M_DISASSOC : Z := 10.
Definition M_AUTH : Z := 11.
Definition M_DEAUTH : Z := 12.
Definition M_BEACON : Z := 8.
Definition M_ATIM : Z := 9.

Definition C_BLOCK_ACK_REQ : Z := 8.
Definition C_BLOCK_ACK : Z := 9.
Definition C_PS_POLL : Z := 10.
Definition C_RTS : Z := 11.
Definition C_CTS : Z := 12.
Definition C_ACK : Z := 13.
Definition C_CF_END : Z := 14.
Definition C_CF_END_ACK : Z := 15.

Definition D_NORMAL : Z := 0.
Definition D_DATA_CF_ACK : Z := 1.
Definition D_DATA_CF_POLL : Z := 2.
Definition D_DATA_CF_ACK_POLL : Z := 3.
Definition D_NULL : Z := 4.
Definition D_CF_ACK : Z := 5.
Definition D_CF_POLL : Z := 6.
Definition D_CF_ACK_POLL : Z := 7.
Definition D_QOS_DATA : Z := 8.
Definition D_QOS_CF_ACK : Z := 9.
Definition D_QOS_CF_POLL : Z := 10.
Definition D_QOS_CF_ACK_POLL : Z := 11.
Definition D_QOS_NULL : Z := 12.
Definition D_QOS_CF_POLL_EMPTY : Z := 14.

Definition _VERSION_MASK : Z := 0x0300.
Definition _TYPE_MASK : Z := 0x0c00.
Definition _SUBTYPE_MASK : Z := 0xf000.
Definition _TO_DS_MASK : Z := 0x0001.
Definition _FROM_DS_MASK : Z := 0x0002.
Definition _MORE_FRAG_MASK : Z := 0x0004.
Definition _RETRY_MASK : Z := 0x0008.
Definition _PWR_MGT_MASK : Z := 0x0010.
Definition _MORE_DATA_MASK : Z := 0x0020.
Definition _PROTECTED_MASK : Z := 0x0040.
Definition _ORDER_MASK : Z := 0x0080.
Definition _VERSION_SHIFT : Z := 8.
Definition _TYPE_SHIFT : Z := 10.
Definition _SUBTYPE_SHIFT : Z := 12.
Definition _TO_DS_SHIFT : Z := 0.
Definition _FROM_DS_SHIFT : Z := 1.
Definition _MORE_FRAG_SHIFT : Z := 2.
Definition _RETRY_SHIFT : Z := 3.
Definition _PWR_MGT_SHIFT : Z := 4.
Definition _MORE_DATA_SHIFT : Z := 5.
Definition _PROTECTED_SHIFT : Z := 6.
Definition _ORDER_SHIFT : Z := 7.

Definition TYPE_FACTORS : list Z := [16; 32; 64].
Definition TYPE_FACTOR_PROTECTED : Z := 128.

(** ** Frame-control accessors

    The object state the accessors touch is the attribute [framectl]; a
    getter is a function of it, a setter returns its new value. *)

Definition _get_version (framectl : Z) : Z :=
  Z.shiftr (Z.land framectl _VERSION_MASK) _VERSION_SHIFT.
Definition _set_version (val framectl : Z) : Z :=
  Z.lor (Z.shiftl val _VERSION_SHIFT) (Z.land framectl (Z.lnot _VERSION_MASK)).

Definition _get_type (framectl : Z) : Z :=
  Z.shiftr (Z.land framectl _TYPE_MASK) _TYPE_SHIFT.
Definition _set_type (val framectl : Z) : Z :=
  Z.lor (Z.shiftl val _TYPE_SHIFT) (Z.land framectl (Z.lnot _TYPE_MASK)).

Definition _get_subtype (framectl : Z) : Z :=
  Z.shiftr (Z.land framectl _SUBTYPE_MASK) _SUBTYPE_SHIFT.
Definition _set_subtype (val framectl : Z) : Z :=
  Z.lor (Z.shiftl val _SUBTYPE_SHIFT) (Z.land framectl (Z.lnot _SUBTYPE_MASK)).

Definition _get_to_ds (framectl : Z) : Z :=
  Z.shiftr (Z.land framectl _TO_DS_MASK) _TO_DS_SHIFT.
Definition _set_to_ds (val framectl : Z) : Z :=
  Z.lor (Z.shiftl val _TO_DS_SHIFT) (Z.land framectl (Z.lnot _TO_DS_MASK)).

Definition _get_from_ds (framectl : Z) : Z :=
  Z.shiftr (Z.land framectl _FROM_DS_MASK) _FROM_DS_SHIFT.
Definition _set_from_ds (val framectl : Z) : Z :=
  Z.lor (Z.shiftl val _FROM_DS_SHIFT) (Z.land framectl (Z.lnot _FROM_DS_MASK)).

Definition _get_more_frag (framectl : Z) : Z :=
  Z.shiftr (Z.land framectl _MORE_FRAG_MASK) _MORE_FRAG_SHIFT.
Definition _set_more_frag (val framectl : Z) : Z :=
  Z.lor (Z.shiftl val _MORE_FRAG_SHIFT) (Z.land framectl (Z.lnot _MORE_FRAG_MASK)).

Definition _get_retry (framectl : Z) : Z :=
  Z.shiftr (Z.land framectl _RETRY_MASK) _RETRY_SHIFT.
Definition _set_retry (val framectl : Z) : Z :=
  Z.lor (Z.shiftl val _RETRY_SHIFT) (Z.land framectl (Z.lnot _RETRY_MASK)).

Definition _get_pwr_mgt (framectl : Z) : Z :=
  Z.shiftr (Z.land framectl _PWR_MGT_MASK) _PWR_MGT_SHIFT.
Definition _set_pwr_mgt (val framectl : Z) : Z :=
  Z.lor (Z.shiftl val _PWR_MGT_SHIFT) (Z.land framectl (Z.lnot _PWR_MGT_MASK)).

Definition _get_more_data (framectl : Z) : Z :=
  Z.shiftr (Z.land framectl _MORE_DATA_MASK) _MORE_DATA_SHIFT.
Definition _set_more_data (val framectl : Z) : Z :=
  Z.lor (Z.shiftl val _MORE_DATA_SHIFT) (Z.land framectl (Z.lnot _MORE_DATA_MASK)).

Definition _get_protected (framectl : Z) : Z :=
  Z.shiftr (Z.land framectl _PROTECTED_MASK) _PROTECTED_SHIFT.
Definition _set_protected (val framectl : Z) : Z :=
  Z.lor (Z.shiftl val _PROTECTED_SHIFT) (Z.land framectl (Z.lnot _PROTECTED_MASK)).

Definition _get_order (framectl : Z) : Z :=
  Z.shiftr (Z.land framectl _ORDER_MASK) _ORDER_SHIFT.
Definition _set_order (val framectl : Z) : Z :=
  Z.lor (Z.shiftl val _ORDER_SHIFT) (Z.land framectl (Z.lnot _ORDER_MASK)).

(** The eleven properties [version], [type], ..., [order] of the class,
    each a (getter, setter) pair. *)
Inductive field : Type :=
| version | type | subtype | to_ds | from_ds | more_frag
| retry | pwr_mgt | more_data | protected | order.

Definition fields : list field :=
  [version; type; subtype; to_ds; from_ds; more_frag;
   retry; pwr_mgt; more_data; protected; order].

Definition fget (f : field) : Z -> Z :=
  match f with
  | version => _get_version
  | type => _get_type
  | subtype => _get_subtype
  | to_ds => _get_to_ds
  | from_ds => _get_from_ds
  | more_frag => _get_more_frag
  | retry => _get_retry
  | pwr_mgt => _get_pwr_mgt
  | more_data => _get_more_data
  | protected => _get_protected
  | order => _get_order
  end.

Definition fset (f : field) : Z -> Z -> Z :=
  match f with
  | version => _set_version
  | type => _set_type
  | subtype => _set_subtype
  | to_ds => _set_to_ds
  | from_ds => _set_from_ds
  | more_frag => _set_more_frag
  | retry => _set_retry
  | pwr_mgt => _set_pwr_mgt
  | more_data => _set_more_data
  | protected => _set_protected
  | order => _set_order
  end.

Definition fmask (f : field) : Z :=
  match f with
  | version => _VERSION_MASK
  | type => _TYPE_MASK
  | subtype => _SUBTYPE_MASK
  | to_ds => _TO_DS_MASK
  | from_ds => _FROM_DS_MASK
  | more_frag => _MORE_FRAG_MASK
  | retry => _RETRY_MASK
  | pwr_mgt => _PWR_MGT_MASK
  | more_data => _MORE_DATA_MASK
  | protected => _PROTECTED_MASK
  | order => _ORDER_MASK
  end.

Definition fshift (f : field) : Z :=
  match f with
  | version => _VERSION_SHIFT
  | type => _TYPE_SHIFT
  | subtype => _SUBTYPE_SHIFT
  | to_ds => _TO_DS_SHIFT
  | from_ds => _FROM_DS_SHIFT
  | more_frag => _MORE_FRAG_SHIFT
  | retry => _RETRY_SHIFT
  | pwr_mgt => _PWR_MGT_SHIFT
  | more_data => _MORE_DATA_SHIFT
  | protected => _PROTECTED_SHIFT
  | order => _ORDER_SHIFT
  end.

(** Declared width of each field, in bits (the comment on [__hdr__]:
    four bits of subtype, two of type, two of version; the rest are
    one-bit flags). *)
Definition fwidth (f : field) : Z :=
  match f with
  | version => 2
  | type => 2
  | subtype => 4
  | _ => 1
  end.

(** The shape shared by all getters and setters. *)
Definition get_bits (mask shift framectl : Z) : Z :=
  Z.shiftr (Z.land framectl mask) shift.
Definition set_bits (mask shift val framectl : Z) : Z :=
  Z.lor (Z.shiftl val shift) (Z.land framectl (Z.lnot mask)).

(** ** Frame bodies and the three decoder tables *)

(** The nested body classes of [IEEE80211].  Classes are compared by
    identity ([val == IEEE80211.Dataframe]); [ProbeResp] is a subclass of
    [Beacon] and a class of its own. *)
Inductive body : Type :=
| Beacon | ProbeReq | ProbeResp | AssocReq | AssocResp | Disassoc
| ReassocReq | Auth | Deauth
| RTS | CTS | ACK | BlockAckReq | BlockAck
| Dataframe | DataframeQos | DataframeSecured | DataframeQosSecured.

#[global] Instance body_eq_dec : EqDecision body.
Proof. solve_decision. Defined.

(** A dict literal is the list of its items in source order; [dict_of]
    gives the mapping it denotes (a repeated key keeps the last value),
    [d.items()] walks the list. *)
Definition dict_of {V : Type} (items : list (Z * V)) : gmap Z V :=
  foldl (fun d kv => <[kv.1 := kv.2]> d) ∅ items.

Definition m_decoder : list (Z * body) :=
  [ (M_BEACON, Beacon);
    (M_ASSOC_REQ, AssocReq);
    (M_ASSOC_RESP, AssocResp);
    (M_DISASSOC, Disassoc);
    (M_REASSOC_REQ, ReassocReq);
    (M_REASSOC_RESP, AssocResp);
    (M_AUTH, Auth);
    (M_PROBE_REQ, ProbeReq);
    (M_PROBE_RESP, ProbeResp);
    (M_DEAUTH, Deauth) ].

Definition c_decoder : list (Z * body) :=
  [ (C_RTS, RTS);
    (C_CTS, CTS);
    (C_ACK, ACK);
    (C_BLOCK_ACK_REQ, BlockAckReq);
    (C_BLOCK_ACK, BlockAck) ].

Definition d_decoder : list (Z * body) :=
  [ (D_NORMAL, Dataframe);
    (D_DATA_CF_ACK, Dataframe);
    (D_DATA_CF_POLL, Dataframe);
    (D_DATA_CF_ACK_POLL, Dataframe);
    (D_NULL, Dataframe);
    (D_CF_ACK, Dataframe);
    (D_CF_POLL, Dataframe);
    (D_CF_ACK_POLL, Dataframe);
    (D_QOS_DATA, DataframeQos);
    (D_QOS_CF_ACK, DataframeQos);
    (D_QOS_CF_POLL, DataframeQos);
    (D_QOS_CF_ACK_POLL, DataframeQos);
    (D_QOS_NULL, DataframeQos);
    (D_QOS_CF_POLL_EMPTY, DataframeQos) ].

(** ** The registry [decoder_dict_complete] *)

Definition dicts : list (list (Z * body)) := [m_decoder; c_decoder; d_decoder].

(** A [for] loop over a list whose body may raise. *)
Fixpoint for_each {A S : Type} (f : S -> A -> result S) (l : list A) (s : S)
  : result S :=
  match l with
  | [] => Ok s
  | a :: l' => s' ← f s a; for_each f l' s'
  end.

(** The body of the inner loop, for one item [(key, val)] of table [pos]. *)
Definition register_item (pos : Z) (reg : gmap Z body) (kv : Z * body)
  : result (gmap Z body) :=
  let '(key, val) := kv in
  tf ← py_getitem TYPE_FACTORS pos;
  let reg := <[tf + key := val]> reg in
  if decide (pos = 2) then
    if decide (val = Dataframe) then
      tf2 ← py_getitem TYPE_FACTORS 2;
      Ok (<[tf2 + key + TYPE_FACTOR_PROTECTED := DataframeSecured]> reg)
    else if decide (val = DataframeQos) then
      tf2 ← py_getitem TYPE_FACTORS 2;
      Ok (<[tf2 + key + TYPE_FACTOR_PROTECTED := DataframeQosSecured]> reg)
    else Ok reg
  else Ok reg.

(** The body of the outer loop, for one [(pos, dict)] of [enumerate(dicts)]. *)
Definition register_dict (reg : gmap Z body) (pd : Z * list (Z * body))
  : result (gmap Z body) :=
  for_each (register_item pd.1) pd.2 reg.

Definition enumerate {A : Type} (l : list A) : list (Z * A) :=
  imap (fun i a => (Z.of_nat i, a)) l.

Definition build_decoder_dict (tables : list (list (Z * body)))
  : result (gmap Z body) :=
  for_each register_dict (enumerate tables) ∅.

(** The module-level dict after the two loops have run. *)
Definition decoder_dict_complete : gmap Z body :=
  match build_decoder_dict dicts with
  | Ok reg => reg
  | Raise _ => ∅
  end.

(** ** Dissecting the frame header *)

Definition byte_val (b : byte) : Z := Z.of_N (Byte.to_N b).

(** [struct.unpack(">H", b)[0]]: exactly two bytes, big-endian. *)
Definition unpack_H (b : list byte) : result Z :=
  match b with
  | [hi; lo] => Ok (256 * byte_val hi + byte_val lo)
  | _ => Raise StructError
  end.

(** What a frame ends up holding after the handler lookup. *)
Inductive handler_result : Type :=
| BodyHandler (schema : body) (data : list byte)
| RawData (data : list byte).

(** Modelled from the spec: [pypacker.Packet._parse_handler] and
    [pypacker.Packet.load_handler] belong to the base class, which is not
    part of this file.  The specification (4.2 lookup, 4.4 step 3) has the
    lookup return the schema registered for the key, and on an absent key
    keep the remaining bytes as an opaque body instead of failing. *)
Definition _parse_handler (hndl_type : Z) (buffer : list byte) : handler_result :=
  match decoder_dict_complete !! hndl_type with
  | Some schema => BodyHandler schema buffer
  | None => RawData buffer
  end.

(** [TYPE_FACTORS[type] + subtype + protected_factor], where
    [protected_factor] is 128 when [protected == 1] and 0 otherwise. *)
Definition build_key (type subtype protected : Z) : result Z :=
  let protected_factor :=
    if decide (protected = 1) then TYPE_FACTOR_PROTECTED else 0 in
  tf ← py_getitem TYPE_FACTORS type;
  Ok (tf + subtype + protected_factor).

(** The key [_dissect] computes from the control word it has just stored. *)
Definition dispatch_key (framectl : Z) : result Z :=
  build_key (_get_type framectl) (_get_subtype framectl) (_get_protected framectl).

(** [IEEE80211._dissect]: returns the control word it stores and what the
    handler lookup leaves as body. *)
Definition _dissect (buf : list byte) : result (Z * handler_result) :=
  framectl ← unpack_H (take 2 buf);
  key ← dispatch_key framectl;
  Ok (framectl, _parse_handler key (drop 4 buf)).

(** ** Information elements *)

Inductive ie_class : Type :=
| IE | FH | DS | CF | TIM | IBSS.

#[global] Instance ie_class_eq_dec : EqDecision ie_class.
Proof. solve_decision. Defined.

Definition IE_SSID : Z := 0.
Definition IE_RATES : Z := 1.
Definition IE_FH : Z := 2.
Definition IE_DS : Z := 3.
Definition IE_CF : Z := 4.
Definition IE_TIM : Z := 5.
Definition IE_IBSS : Z := 6.
Definition IE_HT_CAPA : Z := 45.
Definition IE_ESR : Z := 50.
Definition IE_HT_INFO : Z := 61.

Definition ie_decoder_items : list (Z * ie_class) :=
  [ (IE_SSID, IE);
    (IE_RATES, IE);
    (IE_FH, FH);
    (IE_DS, DS);
    (IE_CF, CF);
    (IE_TIM, TIM);
    (IE_IBSS, IBSS);
    (IE_HT_CAPA, IE);
    (IE_ESR, IE);
    (IE_HT_INFO, IE) ].

Definition ie_decoder : gmap Z ie_class := dict_of ie_decoder_items.

(** Modelled from the spec: the constructor call [parser(bytes)] runs
    [pypacker.Packet.__init__], which is not part of this file.  Following
    the specification (4.3 step 3, "decode the sub-record over
    buffer[o : o+2+len]") the object built is represented by the class
    chosen and the bytes handed to it; every class starts with the one-byte
    header fields [id] and [len], and what follows them is the payload. *)
Record ie_packet : Type := mk_ie {
  ie_parser : ie_class;
  ie_bytes : list byte
}.

Definition ie_id (p : ie_packet) : option Z := byte_val <$> ie_bytes p !! 0%nat.
Definition ie_len (p : ie_packet) : option Z := byte_val <$> ie_bytes p !! 1%nat.
Definition ie_payload (p : ie_packet) : list byte := drop 2 (ie_bytes p).

(** [buf[i]] on a [bytes] object, for an index that is never negative. *)
Definition bytes_getitem (buf : list byte) (i : nat) : result Z :=
  match buf !! i with
  | Some b => Ok (byte_val b)
  | None => Raise IndexError
  end.

(** [buf[lo:hi]] for [0 <= lo <= hi]: the bounds are clamped to the
    buffer, nothing is raised. *)
Definition bytes_slice (buf : list byte) (lo hi : nat) : list byte :=
  take (hi - lo) (drop lo buf).

(** The local variables of [_unpack_ies] that change in the loop. *)
Record ies_state : Type := mk_state {
  ies : list ie_packet;
  off : nat
}.

(** [try: parser = IEEE80211.ie_decoder[ie_id]] with the [except KeyError]
    branch, which takes the standard format [IE]. *)
Definition ie_parser_for (ie_id : Z) : ie_class :=
  match ie_decoder !! ie_id with
  | Some cls => cls
  | None => IE
  end.

(** One pass through the body of [while off < buflen]. *)
Definition ies_step (buf : list byte) (st : ies_state) : result ies_state :=
  ie_id ← bytes_getitem buf (off st);
  let parser := ie_parser_for ie_id in
  dlen ← bytes_getitem buf (off st + 1);
  let ie := mk_ie parser (bytes_slice buf (off st) (off st + 2 + Z.to_nat dlen)) in
  Ok (mk_state (ies st ++ [ie]) (off st + 2 + Z.to_nat dlen)).

(** The [while] loop; [None] means the fuel ran out before the loop
    condition became false or an exception left the loop. *)
Fixpoint ies_loop (fuel : nat) (buf : list byte) (st : ies_state)
  : option (result ies_state) :=
  if (off st <? length buf)%nat then
    match fuel with
    | O => None
    | S fuel' =>
        match ies_step buf st with
        | Ok st' => ies_loop fuel' buf st'
        | Raise e => Some (Raise e)
        end
    end
  else Some (Ok st).

Definition ies_init : ies_state := mk_state [] 0.

(** The loop of [_unpack_ies(buf)] from [ies = []], [off = 0], run with
    [len(buf)] units of fuel; the result is the state in which the loop
    is left. *)
Definition unpack_run (buf : list byte) : option (result ies_state) :=
  ies_loop (length buf) buf ies_init.

(** [_unpack_ies(buf)]: the loop, then [return ies]. *)
Definition _unpack_ies (buf : list byte) : option (result (list ie_packet)) :=
  r ← unpack_run buf;
  Some (st ← r; Ok (ies st)).

(** ** Well-formed elements on the wire

    Used to state what the loop does on a buffer made of whole elements. *)

(** One element as sent: id byte, length byte, payload. *)
Record raw_ie : Type := mk_raw {
  raw_id : byte;
  raw_len : byte;
  raw_payload : list byte
}.

(** The length byte counts the payload bytes. *)
Definition wf_ie (e : raw_ie) : Prop :=
  length (raw_payload e) = Z.to_nat (byte_val (raw_len e)).

Definition ie_wire (e : raw_ie) : list byte :=
  raw_id e :: raw_len e :: raw_payload e.

Definition ies_wire (es : list raw_ie) : list byte :=
  concat (ie_wire <$> es).

(** The object expected for a whole element. *)
Definition ie_parsed (e : raw_ie) : ie_packet :=
  mk_ie (ie_parser_for (byte_val (raw_id e))) (ie_wire e).

(** The state of a run on [buf] seen from a run on [pre ++ buf] that has
    already collected [acc] over [pre]. *)
Definition shift_state (n : nat) (acc : list ie_packet) (st : ies_state)
  : ies_state :=
  mk_state (acc ++ ies st) (n + off st).

(** An object whose payload has as many bytes as its length byte says. *)
Definition whole_element (p : ie_packet) : Prop :=
  ie_len p = Some (Z.of_nat (length (ie_payload p))).

(** ** Bits of the control word *)

(** The field a bit of the 16-bit control word belongs to (bit 0 is the
    least significant one). *)
Definition field_at (i : Z) : field :=
  if i <? 1 then to_ds
  else if i <? 2 then from_ds
  else if i <? 3 then more_frag
  else if i <? 4 then retry
  else if i <? 5 then pwr_mgt
  else if i <? 6 then more_data
  else if i <? 7 then protected
  else if i <? 8 then order
  else if i <? 10 then version
  else if i <? 12 then type
  else subtype.

(** ** Where a registry entry comes from *)

(** The entry [k -> v] is one the loop body writes for the item
    [(s, b)] of the table at position [pos]: either the plain entry at the
    unprotected key, or, for the data table only, the secured variant at
    the protected key. *)
Definition entry_from (pos s : Z) (b : body) (k : Z) (v : body) : Prop :=
  (build_key pos s 0 = Ok k /\ v = b) \/
  (pos = 2 /\ build_key 2 s 1 = Ok k /\
   ((b = Dataframe /\ v = DataframeSecured) \/
    (b = DataframeQos /\ v = DataframeQosSecured))).

(** ** Fixed headers of the body classes *)

(** The [struct] format of a header field; [Fmt_None] is the format
    [None] of a dynamic field such as [params], which takes no bytes of
    the fixed header. *)
Inductive hdr_fmt : Type :=
| Fmt_6s | Fmt_H | Fmt_Q | Fmt_B | Fmt_None.

#[global] Instance hdr_fmt_eq_dec : EqDecision hdr_fmt.
Proof. solve_decision. Defined.

(** [struct.calcsize] of one format (standard sizes, no padding). *)
Definition fmt_size (f : hdr_fmt) : nat :=
  match f with
  | Fmt_6s => 6
  | Fmt_H => 2
  | Fmt_Q => 8
  | Fmt_B => 1
  | Fmt_None => 0
  end.

(** The header fields of a class, by name, in the order of [__hdr__]. *)
Definition body_hdr (cls : body) : list (string * hdr_fmt) :=
  match cls with
  | Beacon | ProbeResp =>
      [("dst", Fmt_6s); ("src1", Fmt_6s); ("src2", Fmt_6s);
       ("frag_seq", Fmt_H); ("ts", Fmt_Q); ("interval", Fmt_H);
       ("capa", Fmt_H); ("params", Fmt_None)]
  | ProbeReq =>
      [("dst", Fmt_6s); ("src1", Fmt_6s); ("src2", Fmt_6s);
       ("frag_seq", Fmt_H); ("params", Fmt_None)]
  | AssocReq =>
      [("dst", Fmt_6s); ("src1", Fmt_6s); ("src2", Fmt_6s);
       ("frag_seq", Fmt_H); ("capa", Fmt_H); ("interval", Fmt_H);
       ("params", Fmt_None)]
  | AssocResp =>
      [("dst", Fmt_6s); ("src1", Fmt_6s); ("src2", Fmt_6s);
       ("frag_seq", Fmt_H); ("capa", Fmt_H); ("status", Fmt_H);
       ("aid", Fmt_H); ("params", Fmt_None)]
  | Disassoc =>
      [("dst", Fmt_6s); ("src1", Fmt_6s); ("src2", Fmt_6s);
       ("frag_seq", Fmt_H); ("reason", Fmt_H)]
  | ReassocReq =>
      [("dst", Fmt_6s); ("src1", Fmt_6s); ("src2", Fmt_6s);
       ("frag_seq", Fmt_H); ("capa", Fmt_H); ("interval", Fmt_H);
       ("current_ap", Fmt_6s)]
  | Auth =>
      [("dst", Fmt_6s); ("src1", Fmt_6s); ("src2", Fmt_6s);
       ("frag_seq", Fmt_H); ("algo", Fmt_H); ("auth_seq", Fmt_H)]
  | Deauth =>
      [("dst", Fmt_6s); ("src1", Fmt_6s); ("src2", Fmt_6s);
       ("frag_seq", Fmt_H); ("reason", Fmt_H)]
  | RTS => [("dst", Fmt_6s); ("src", Fmt_6s)]
  | CTS => [("dst", Fmt_6s)]
  | ACK => [("dst", Fmt_6s)]
  | BlockAckReq =>
      [("dst", Fmt_6s); ("src", Fmt_6s); ("reqctrl", Fmt_H); ("seq", Fmt_H)]
  | BlockAck =>
      [("dst", Fmt_6s); ("src", Fmt_6s); ("reqctrl", Fmt_H); ("seq", Fmt_H);
       ("bitmap", Fmt_Q)]
  | Dataframe =>
      [("dst", Fmt_6s); ("src1", Fmt_6s); ("src2", Fmt_6s);
       ("frag_seq", Fmt_H)]
  | DataframeQos =>
      [("dst", Fmt_6s); ("src1", Fmt_6s); ("src2", Fmt_6s);
       ("frag_seq", Fmt_H); ("qos_ctrl", Fmt_H)]
  | DataframeSecured =>
      [("dst", Fmt_6s); ("src1", Fmt_6s); ("src2", Fmt_6s);
       ("frag_seq", Fmt_H); ("sec_param", Fmt_Q)]
  | DataframeQosSecured =>
      [("dst", Fmt_6s); ("src1", Fmt_6s); ("src2", Fmt_6s);
       ("frag_seq", Fmt_H); ("qos_ctrl", Fmt_H); ("sec_param", Fmt_Q)]
  end.

(** The number of bytes the fixed fields take. *)
Definition hdr_size (hdr : list (string * hdr_fmt)) : nat :=
  sum_list (fmt_size ∘ snd <$> hdr).

(** The [_dissect] methods of the body classes.  Each hands a slice of
    its buffer to [self.params.init_lazy_dissect] together with
    [IEEE80211._unpack_ies]; the slice is what is returned here. *)
Definition Beacon_dissect (buf : list byte) : list byte := drop 32 buf.
Definition ProbeReq_dissect (buf : list byte) : list byte := drop 20 buf.
Definition AssocReq_dissect (buf : list byte) : list byte := drop 24 buf.
Definition AssocResp_dissect (buf : list byte) : list byte := drop 26 buf.

(** [cls._dissect(buf)] by class: [ProbeResp] inherits the method of
    [Beacon]; the other classes do not define one, and nothing is handed
    to [_unpack_ies]. *)
Definition body_dissect (cls : body) (buf : list byte) : option (list byte) :=
  match cls with
  | Beacon | ProbeResp => Some (Beacon_dissect buf)
  | ProbeReq => Some (ProbeReq_dissect buf)
  | AssocReq => Some (AssocReq_dissect buf)
  | AssocResp => Some (AssocResp_dissect buf)
  | _ => None
  end.

(** The secured class the second loop pairs with a data class. *)
Definition secured_of (b : body) : option body :=
  match b with
  | Dataframe => Some DataframeSecured
  | DataframeQos => Some DataframeQosSecured
  | _ => None
  end.

Lemma fget_bits f w : fget f w = get_bits (fmask f) (fshift f) w.
Proof. destruct f; reflexivity. Qed.

Lemma fset_bits f v w : fset f v w = set_bits (fmask f) (fshift f) v w.
Proof. destruct f; reflexivity. Qed.

Lemma fmask_ones f : fmask f = Z.shiftl (Z.ones (fwidth f)) (fshift f).
Proof. destruct f; reflexivity. Qed.

Lemma fshift_nonneg f : 0 <= fshift f.
Proof. destruct f; cbv; discriminate. Qed.

Lemma fwidth_nonneg f : 0 <= fwidth f.
Proof. destruct f; cbv; discriminate. Qed.

(** ** Bit-level facts about one field *)

Section BitField.
Variables (n s : Z).
Hypothesis Hn : 0 <= n.
Hypothesis Hs : 0 <= s.

Local Abbreviation m := (Z.shiftl (Z.ones n) s).

Lemma mask_testbit i :
  0 <= i -> Z.testbit m i = (s <=? i) && (i <? s + n).
Proof.
  intros Hi. rewrite Z.shiftl_spec by lia.
  destruct (Z.leb_spec s i); simpl.
  - destruct (Z.ltb_spec i (s + n)).
    + apply Z.ones_spec_low. lia.
    + apply Z.ones_spec_high. lia.
  - apply Z.testbit_neg_r. lia.
Qed.

Lemma get_bits_testbit w i :
  0 <= i ->
  Z.testbit (get_bits m s w) i = Z.testbit w (i + s) && (i <? n).
Proof.
  intros Hi. unfold get_bits.
  rewrite Z.shiftr_spec, Z.land_spec, mask_testbit by lia.
  destruct (Z.leb_spec s (i + s)); [|lia]. simpl.
  destruct (Z.ltb_spec (i + s) (s + n)), (Z.ltb_spec i n); try lia; reflexivity.
Qed.

Lemma set_bits_testbit v w i :
  0 <= i ->
  Z.testbit (set_bits m s v w) i =
  Z.testbit v (i - s) || (Z.testbit w i && negb ((s <=? i) && (i <? s + n))).
Proof.
  intros Hi. unfold set_bits.
  rewrite Z.lor_spec, Z.shiftl_spec, Z.land_spec, Z.lnot_spec, mask_testbit by lia.
  reflexivity.
Qed.

Lemma fits_testbit v i : 0 <= v < 2 ^ n -> n <= i -> Z.testbit v i = false.
Proof.
  intros Hv Hi. rewrite <- (Z.mod_small v (2 ^ n)) by lia.
  apply Z.mod_pow2_bits_high. lia.
Qed.

(** Writing back what was read changes nothing. *)
Lemma set_get_bits w : set_bits m s (get_bits m s w) w = w.
Proof.
  apply Z.bits_inj'. intros i Hi.
  rewrite set_bits_testbit by lia.
  destruct (Z.leb_spec s i); simpl.
  - rewrite get_bits_testbit by lia.
    replace (i - s + s) with i by lia.
    destruct (Z.ltb_spec i (s + n)), (Z.ltb_spec (i - s) n); try lia;
      destruct (Z.testbit w i); reflexivity.
  - rewrite Z.testbit_neg_r by lia. simpl. apply andb_true_r.
Qed.

(** Reading back what was written, for a value that fits. *)
Lemma get_set_bits v w : 0 <= v < 2 ^ n -> get_bits m s (set_bits m s v w) = v.
Proof.
  intros Hv. apply Z.bits_inj'. intros i Hi.
  rewrite get_bits_testbit, set_bits_testbit by lia.
  replace (i + s - s) with i by lia.
  destruct (Z.leb_spec s (i + s)); [|lia]. simpl.
  destruct (Z.ltb_spec i n).
  - destruct (Z.ltb_spec (i + s) (s + n)); [|lia]. simpl.
    rewrite andb_false_r, orb_false_r, andb_true_r. reflexivity.
  - rewrite andb_false_r. symmetry. apply fits_testbit; lia.
Qed.

(** A value that fits stays inside the field: another field, whose bit
    range [s', s'+n') is disjoint from [s, s+n), reads the same before
    and after. *)
Lemma get_set_bits_other n' s' v w :
  0 <= n' -> 0 <= s' ->
  s' + n' <= s \/ s + n <= s' ->
  0 <= v < 2 ^ n ->
  get_bits (Z.shiftl (Z.ones n') s') s' (set_bits m s v w) =
  get_bits (Z.shiftl (Z.ones n') s') s' w.
Proof.
  intros Hn' Hs' Hdisj Hv. apply Z.bits_inj'. intros i Hi.
  unfold get_bits at 1 2.
  rewrite !Z.shiftr_spec, !Z.land_spec by lia.
  rewrite set_bits_testbit by lia.
  assert (Hm' : Z.testbit (Z.shiftl (Z.ones n') s') (i + s') = (i <? n')).
  { rewrite Z.shiftl_spec by lia. replace (i + s' - s') with i by lia.
    destruct (Z.ltb_spec i n').
    - apply Z.ones_spec_low. lia.
    - apply Z.ones_spec_high. lia. }
  rewrite Hm'. destruct (Z.ltb_spec i n'); [|rewrite !andb_false_r; reflexivity].
  rewrite !andb_true_r.
  assert (Hv0 : Z.testbit v (i + s' - s) = false).
  { destruct (Z.lt_ge_cases (i + s' - s) 0).
    - apply Z.testbit_neg_r. lia.
    - apply fits_testbit; lia. }
  rewrite Hv0. simpl.
  destruct (Z.leb_spec s (i + s')), (Z.ltb_spec (i + s') (s + n)); simpl;
    try lia; apply andb_true_r.
Qed.
End BitField.

(** ** The frame-control codec *)

Lemma fields_disjoint_ranges f g :
  f <> g ->
  fshift g + fwidth g <= fshift f \/ fshift f + fwidth f <= fshift g.
Proof. destruct f, g; intros Hfg; try congruence; cbv; intuition discriminate. Qed.

Lemma fset_fget f w : fset f (fget f w) w = w.
Proof.
  rewrite fset_bits, fget_bits, fmask_ones.
  apply set_get_bits; [apply fwidth_nonneg | apply fshift_nonneg].
Qed.

Lemma fget_fset f v w : 0 <= v < 2 ^ fwidth f -> fget f (fset f v w) = v.
Proof.
  intros Hv. rewrite fset_bits, fget_bits, fmask_ones.
  apply get_set_bits; [apply fwidth_nonneg | apply fshift_nonneg | exact Hv].
Qed.

Lemma fget_fset_other f g v w :
  f <> g -> 0 <= v < 2 ^ fwidth f -> fget g (fset f v w) = fget g w.
Proof.
  intros Hfg Hv. rewrite fset_bits, !fget_bits, !fmask_ones.
  apply get_set_bits_other;
    auto using fwidth_nonneg, fshift_nonneg, fields_disjoint_ranges.
Qed.

(** A getter is the field's digits of the word: [(w / 2^shift) mod 2^width]. *)
Lemma fget_div_mod f w : fget f w = (w / 2 ^ fshift f) mod 2 ^ fwidth f.
Proof.
  rewrite fget_bits, fmask_ones. unfold get_bits.
  pose proof (fshift_nonneg f). pose proof (fwidth_nonneg f).
  rewrite Z.shiftr_land, Z.shiftr_shiftl_l, Z.sub_diag, Z.shiftl_0_r by lia.
  rewrite Z.land_ones, Z.shiftr_div_pow2 by lia. reflexivity.
Qed.

Lemma fget_range f w : 0 <= fget f w < 2 ^ fwidth f.
Proof.
  rewrite fget_div_mod. apply Z.mod_pos_bound.
  apply Z.pow_pos_nonneg; [lia | apply fwidth_nonneg].
Qed.

Lemma fmask_disjoint f g : f <> g -> Z.land (fmask f) (fmask g) = 0.
Proof. destruct f, g; intros Hfg; try congruence; reflexivity. Qed.

(** C5: for every 16-bit control word and each of the eleven fields,
    writing back the value just read leaves the word unchanged; writing a
    value that fits the field's width leaves the value read from every
    other field unchanged; the eleven masks are pairwise disjoint and
    their union is all sixteen bits. *)
Theorem frame_control_roundtrip_isolation (w : Z) (Hw : 0 <= w < 65536) :
  (forall f, fset f (fget f w) w = w) /\
  (forall f g v,
      f <> g -> 0 <= v < 2 ^ fwidth f -> fget g (fset f v w) = fget g w) /\
  (forall f g, f <> g -> Z.land (fmask f) (fmask g) = 0) /\
  foldr Z.lor 0 (fmask <$> fields) = 0xffff.
Proof.
  split; [|split; [|split]].
  - intros f. apply fset_fget.
  - intros f g v Hfg Hv. apply fget_fset_other; assumption.
  - apply fmask_disjoint.
  - reflexivity.
Qed.

Lemma frame_control_roundtrip_isolation_witness :
  (forall f, fset f (fget f 0xc840) 0xc840 = 0xc840) /\
  (forall f g v,
      f <> g -> 0 <= v < 2 ^ fwidth f ->
      fget g (fset f v 0xc840) = fget g 0xc840) /\
  (forall f g, f <> g -> Z.land (fmask f) (fmask g) = 0) /\
  foldr Z.lor 0 (fmask <$> fields) = 0xffff.
Proof. apply (frame_control_roundtrip_isolation 0xc840). lia. Defined.

(** C10: the setters shift the value in without masking it.  Setting the
    two-bit version field of the word 0 to 4 changes the type field from 0
    to 1, and setting the four-bit subtype field of the word 0 to 16
    stores 0x10000, which no longer fits sixteen bits; so the isolation
    law needs the value to fit the field. *)
Theorem setters_do_not_mask :
  (forall val framectl,
      _set_version val framectl =
      Z.lor (Z.shiftl val 8) (Z.land framectl (Z.lnot 0x0300))) /\
  (exists w v,
      0 <= w < 65536 /\ 2 ^ fwidth version <= v /\
      _get_type (_set_version v w) <> _get_type w) /\
  (exists w v,
      0 <= w < 65536 /\ 2 ^ fwidth subtype <= v /\
      65536 <= _set_subtype v w) /\
  _set_version 4 0 = 0x0400 /\ _get_type 0 = 0 /\ _get_type 0x0400 = 1 /\
  _set_subtype 16 0 = 0x10000.
Proof.
  split; [reflexivity|].
  split; [exists 0, 4; cbv; intuition discriminate|].
  split; [exists 0, 16; cbv; intuition discriminate|].
  repeat split.
Qed.

(** ** The dispatch key and the registry *)

(** Case analysis on an integer known to lie in a closed numeral range. *)
Ltac Z_enum s :=
  match goal with
  | H : ?lo <= s <= ?hi |- _ =>
      first
        [ exfalso; lia
        | destruct (Z.eq_dec s lo) as [->|?];
          [ clear H
          | let lo' := eval cbv in (lo + 1) in
            assert (lo' <= s <= hi) by lia; clear H; Z_enum s ] ]
  end.

(** Case analysis on membership in a list written out in full. *)
Ltac elem_of_cases H :=
  repeat match type of H with
         | _ ∈ _ :: _ => apply elem_of_cons in H; destruct H as [H|H]
         | _ ∈ [] => apply elem_of_nil in H; destruct H
         end.

Lemma foldl_insert_lookup {V : Type} (items : list (Z * V)) (acc : gmap Z V) k v :
  foldl (fun d kv => <[kv.1 := kv.2]> d) acc items !! k = Some v ->
  (k, v) ∈ items \/ acc !! k = Some v.
Proof.
  revert acc. induction items as [|[k' v'] items IH]; intros acc H; simpl in *.
  - right. exact H.
  - destruct (IH _ H) as [Hin|Hacc].
    + left. apply elem_of_cons. right. exact Hin.
    + destruct (decide (k' = k)) as [->|Hne].
      * rewrite lookup_insert_eq in Hacc. injection Hacc as ->.
        left. apply elem_of_cons. left. reflexivity.
      * rewrite lookup_insert_ne in Hacc by exact Hne. right. exact Hacc.
Qed.

(** Indexing a dict literal gives a value the literal lists for that key. *)
Lemma dict_of_lookup_elem {V : Type} (items : list (Z * V)) k v :
  dict_of items !! k = Some v -> (k, v) ∈ items.
Proof.
  intros H. destruct (foldl_insert_lookup items ∅ k v H) as [Hin|He].
  - exact Hin.
  - rewrite lookup_empty in He. discriminate.
Qed.

(** The two loops at module level run to completion. *)
Lemma build_decoder_dict_ok : build_decoder_dict dicts = Ok decoder_dict_complete.
Proof. reflexivity. Qed.

Lemma build_key_ok t s p :
  0 <= t <= 2 ->
  build_key t s p =
  Ok (Z.shiftl 16 t + s + if decide (p = 1) then 128 else 0).
Proof. intros Ht. Z_enum t; reflexivity. Qed.

Lemma build_key_injective t s p t' s' p' k :
  0 <= t <= 2 -> 0 <= s <= 15 -> 0 <= p <= 1 ->
  0 <= t' <= 2 -> 0 <= s' <= 15 -> 0 <= p' <= 1 ->
  build_key t s p = Ok k -> build_key t' s' p' = Ok k ->
  t = t' /\ s = s' /\ p = p'.
Proof.
  intros Ht Hs Hp Ht' Hs' Hp' Hk Hk'.
  rewrite build_key_ok in Hk, Hk' by assumption.
  injection Hk as Hk. injection Hk' as Hk'. subst k.
  Z_enum t; Z_enum t'; Z_enum p; Z_enum p';
    change (Z.shiftl 16 0) with 16 in Hk';
    change (Z.shiftl 16 1) with 32 in Hk';
    change (Z.shiftl 16 2) with 64 in Hk';
    repeat case_decide; lia.
Qed.

Lemma registry_unprotected t tbl s v :
  0 <= t <= 2 ->
  py_getitem dicts t = Ok tbl ->
  dict_of tbl !! s = Some v ->
  exists k, build_key t s 0 = Ok k /\ decoder_dict_complete !! k = Some v.
Proof.
  intros Ht Htbl Hv. apply dict_of_lookup_elem in Hv.
  Z_enum t; vm_compute in Htbl; injection Htbl as <-; elem_of_cases Hv;
    injection Hv as -> ->; eexists; (split; [reflexivity|]);
    vm_compute; reflexivity.
Qed.

(** C3: the dispatch key is injective on type in {0,1,2}, subtype in
    [0,15], protected in {0,1}; and for every entry subtype -> schema of
    each of the three source tables (the table at position [t] of
    [dicts]), the registry built at module level holds exactly that schema
    at the key derived with protected = 0. *)
Theorem dispatch_key_injective_registry_faithful :
  (forall t s p t' s' p' k,
      0 <= t <= 2 -> 0 <= s <= 15 -> 0 <= p <= 1 ->
      0 <= t' <= 2 -> 0 <= s' <= 15 -> 0 <= p' <= 1 ->
      build_key t s p = Ok k -> build_key t' s' p' = Ok k ->
      t = t' /\ s = s' /\ p = p') /\
  build_decoder_dict dicts = Ok decoder_dict_complete /\
  (forall t tbl s v,
      0 <= t <= 2 ->
      py_getitem dicts t = Ok tbl ->
      dict_of tbl !! s = Some v ->
      exists k, build_key t s 0 = Ok k /\ decoder_dict_complete !! k = Some v).
Proof.
  split; [|split].
  - apply build_key_injective.
  - apply build_decoder_dict_ok.
  - apply registry_unprotected.
Qed.

Lemma dispatch_key_injective_registry_faithful_witness :
  (1 = 1 /\ 4 = 4 /\ 0 = 0) /\
  exists k, build_key 0 8 0 = Ok k /\ decoder_dict_complete !! k = Some Beacon.
Proof.
  destruct dispatch_key_injective_registry_faithful as (Hinj & _ & Hreg).
  split.
  - apply (Hinj 1 4 0 1 4 0 36); try lia; reflexivity.
  - apply (Hreg 0 m_decoder 8 Beacon); [lia | reflexivity | reflexivity].
Defined.

Lemma registry_data_protected k v :
  dict_of d_decoder !! k = Some v ->
  build_key DATA_TYPE k 1 = Ok (64 + k + 128) /\
  (v = Dataframe ->
   decoder_dict_complete !! (64 + k + 128) = Some DataframeSecured) /\
  (v = DataframeQos ->
   decoder_dict_complete !! (64 + k + 128) = Some DataframeQosSecured) /\
  decoder_dict_complete !! (64 + k + 128) <> Some Dataframe /\
  decoder_dict_complete !! (64 + k + 128) <> Some DataframeQos.
Proof.
  intros Hv. apply dict_of_lookup_elem in Hv. unfold d_decoder in Hv.
  elem_of_cases Hv; injection Hv as -> ->;
    (split; [reflexivity|]); vm_compute; intuition discriminate.
Qed.

Lemma registry_protected_data_subtypes s :
  0 <= s <= 15 ->
  decoder_dict_complete !! (64 + s + 128) <> Some Dataframe /\
  decoder_dict_complete !! (64 + s + 128) <> Some DataframeQos.
Proof. intros Hs. Z_enum s; vm_compute; intuition discriminate. Qed.

Lemma registry_no_protected_mgmt_ctl t s :
  0 <= t <= 1 -> 0 <= s <= 15 ->
  exists k, build_key t s 1 = Ok k /\ decoder_dict_complete !! k = None.
Proof.
  intros Ht Hs.
  Z_enum t; Z_enum s; eexists; (split; [reflexivity|]); vm_compute; reflexivity.
Qed.

(** C4: for every subtype [k] of the data table, a [Dataframe] entry puts
    [DataframeSecured] at key 64+k+128 and a [DataframeQos] entry puts
    [DataframeQosSecured] there; a data key taken with the protected bit
    set never gives [Dataframe] or [DataframeQos]; and no key of a
    management or control frame with the protected bit set is in the
    registry. *)
Theorem secured_entries_only_for_data :
  (forall k v,
      dict_of d_decoder !! k = Some v ->
      build_key DATA_TYPE k 1 = Ok (64 + k + 128) /\
      (v = Dataframe ->
       decoder_dict_complete !! (64 + k + 128) = Some DataframeSecured) /\
      (v = DataframeQos ->
       decoder_dict_complete !! (64 + k + 128) = Some DataframeQosSecured) /\
      decoder_dict_complete !! (64 + k + 128) <> Some Dataframe /\
      decoder_dict_complete !! (64 + k + 128) <> Some DataframeQos) /\
  (forall s,
      0 <= s <= 15 ->
      decoder_dict_complete !! (64 + s + 128) <> Some Dataframe /\
      decoder_dict_complete !! (64 + s + 128) <> Some DataframeQos) /\
  (forall t s,
      0 <= t <= 1 -> 0 <= s <= 15 ->
      exists k, build_key t s 1 = Ok k /\ decoder_dict_complete !! k = None).
Proof.
  split; [|split].
  - apply registry_data_protected.
  - apply registry_protected_data_subtypes.
  - apply registry_no_protected_mgmt_ctl.
Qed.

Lemma secured_entries_only_for_data_witness :
  decoder_dict_complete !! (64 + 12 + 128) = Some DataframeQosSecured /\
  decoder_dict_complete !! (64 + 0 + 128) = Some DataframeSecured /\
  exists k, build_key 0 8 1 = Ok k /\ decoder_dict_complete !! k = None.
Proof.
  destruct secured_entries_only_for_data as (Hd & _ & Hmc).
  split; [|split].
  - apply (Hd 12 DataframeQos); reflexivity.
  - apply (Hd 0 Dataframe); reflexivity.
  - apply (Hmc 0 8); lia.
Defined.

(** ** Dissecting the header *)

Lemma dissect_header hi lo tail :
  _dissect (hi :: lo :: tail) =
  key ← dispatch_key (256 * byte_val hi + byte_val lo);
  Ok (256 * byte_val hi + byte_val lo, _parse_handler key (drop 2 tail)).
Proof. reflexivity. Qed.

(** C7: a frame whose control word is 0x8000 has type 0, subtype 8,
    protected 0, dispatch key 16+8 = 24, and gets the [Beacon] schema; a
    frame whose control word is 0xC840 has type 2, subtype 12, protected
    1, dispatch key 64+12+128 = 204, and gets [DataframeQosSecured]. *)
Theorem dissect_scenarios :
  (_get_type 0x8000 = 0 /\ _get_subtype 0x8000 = 8 /\
   _get_protected 0x8000 = 0 /\
   dispatch_key 0x8000 = Ok (16 + 8) /\ 16 + 8 = 24 /\
   decoder_dict_complete !! 24 = Some Beacon /\
   forall tail,
     _dissect (x80 :: x00 :: tail) =
     Ok (0x8000, BodyHandler Beacon (drop 2 tail))) /\
  (_get_type 0xc840 = 2 /\ _get_subtype 0xc840 = 12 /\
   _get_protected 0xc840 = 1 /\
   dispatch_key 0xc840 = Ok (64 + 12 + 128) /\ 64 + 12 + 128 = 204 /\
   decoder_dict_complete !! 204 = Some DataframeQosSecured /\
   forall tail,
     _dissect (xc8 :: x40 :: tail) =
     Ok (0xc840, BodyHandler DataframeQosSecured (drop 2 tail))).
Proof. repeat split. Qed.

Lemma dispatch_key_ok (w : Z) :
  _get_type w <> 3 ->
  dispatch_key w =
  Ok (Z.shiftl 16 (_get_type w) + _get_subtype w
      + if decide (_get_protected w = 1) then 128 else 0).
Proof.
  intros Ht. unfold dispatch_key. apply build_key_ok.
  pose proof (fget_range type w) as Hr. simpl in Hr. lia.
Qed.

(** C1 (as stated) fails: the two-bit type field of the control word
    0x0c00 is 3, [TYPE_FACTORS] has three entries, and the index raises. *)
Lemma dispatch_key_type3_raises :
  0 <= 0x0c00 < 65536 /\
  _get_type 0x0c00 = 3 /\
  dispatch_key 0x0c00 = Raise IndexError /\
  _dissect [x0c; x00; x00; x00] = Raise IndexError /\
  ~ (forall w, 0 <= w < 65536 -> exists k, dispatch_key w = Ok k).
Proof.
  repeat split; try (cbv; congruence).
  intros H. destruct (H 0x0c00) as [k Hk]; [lia | discriminate Hk].
Qed.

(** C1 (amended): for every 16-bit control word whose type field is 0, 1
    or 2, computing the dispatch key raises nothing; [_dissect] of a frame
    carrying that word returns, with the registered schema when the key
    is in the registry and with the remaining bytes kept as raw data when
    it is not. *)
Theorem dispatch_key_defined_types (w : Z)
  (Hw : 0 <= w < 65536) (Ht : _get_type w <> 3) :
  exists k,
    dispatch_key w = Ok k /\
    (forall hi lo tail,
        256 * byte_val hi + byte_val lo = w ->
        _dissect (hi :: lo :: tail) = Ok (w, _parse_handler k (drop 2 tail))) /\
    (forall data,
        decoder_dict_complete !! k = None ->
        _parse_handler k data = RawData data) /\
    (forall data schema,
        decoder_dict_complete !! k = Some schema ->
        _parse_handler k data = BodyHandler schema data).
Proof.
  eexists. split; [apply dispatch_key_ok; exact Ht|].
  split; [|split].
  - intros hi lo tail <-. rewrite dissect_header.
    rewrite dispatch_key_ok by exact Ht. reflexivity.
  - intros data Hk. unfold _parse_handler. rewrite Hk. reflexivity.
  - intros data schema Hk. unfold _parse_handler. rewrite Hk. reflexivity.
Qed.

Lemma dispatch_key_defined_types_witness :
  exists k,
    dispatch_key 0x9000 = Ok k /\
    (forall hi lo tail,
        256 * byte_val hi + byte_val lo = 0x9000 ->
        _dissect (hi :: lo :: tail) =
        Ok (0x9000, _parse_handler k (drop 2 tail))) /\
    (forall data,
        decoder_dict_complete !! k = None ->
        _parse_handler k data = RawData data) /\
    (forall data schema,
        decoder_dict_complete !! k = Some schema ->
        _parse_handler k data = BodyHandler schema data).
Proof.
  apply (dispatch_key_defined_types 0x9000); [lia | cbv; discriminate].
Defined.

(** ** The information-element loop *)

Local Open Scope nat_scope.

Lemma ies_loop_unfold fuel buf st :
  ies_loop fuel buf st =
  if off st <? length buf then
    match fuel with
    | O => None
    | S fuel' =>
        match ies_step buf st with
        | Ok st' => ies_loop fuel' buf st'
        | Raise e => Some (Raise e)
        end
    end
  else Some (Ok st).
Proof. destruct fuel; reflexivity. Qed.

Lemma ies_step_ok buf st idb lenb :
  buf !! off st = Some idb ->
  buf !! (off st + 1) = Some lenb ->
  ies_step buf st =
  Ok (mk_state
        (ies st ++
         [mk_ie (ie_parser_for (byte_val idb))
                (bytes_slice buf (off st)
                             (off st + 2 + Z.to_nat (byte_val lenb)))])
        (off st + 2 + Z.to_nat (byte_val lenb))).
Proof.
  intros Hid Hlen. unfold ies_step, bytes_getitem. rewrite Hid, Hlen.
  reflexivity.
Qed.

Lemma ies_step_no_len buf st :
  buf !! (off st + 1) = None -> ies_step buf st = Raise IndexError.
Proof.
  intros Hlen. unfold ies_step, bytes_getitem. rewrite Hlen.
  destruct (buf !! off st); reflexivity.
Qed.

Lemma ies_step_inv buf st st' :
  ies_step buf st = Ok st' ->
  exists idb lenb,
    buf !! off st = Some idb /\
    buf !! (off st + 1) = Some lenb /\
    st' = mk_state
            (ies st ++
             [mk_ie (ie_parser_for (byte_val idb))
                    (bytes_slice buf (off st)
                                 (off st + 2 + Z.to_nat (byte_val lenb)))])
            (off st + 2 + Z.to_nat (byte_val lenb)).
Proof.
  intros H. destruct (buf !! off st) as [idb|] eqn:Hid.
  - destruct (buf !! (off st + 1)) as [lenb|] eqn:Hlen.
    + rewrite (ies_step_ok _ _ _ _ Hid Hlen) in H. injection H as <-.
      exists idb, lenb. auto.
    + rewrite ies_step_no_len in H by exact Hlen. discriminate.
  - unfold ies_step, bytes_getitem in H. rewrite Hid in H. discriminate.
Qed.

(** Every pass that does not raise moves the offset forward by two plus
    the declared length. *)
Lemma ies_step_advance buf st st' :
  ies_step buf st = Ok st' ->
  exists lenb,
    buf !! (off st + 1) = Some lenb /\
    off st' = off st + 2 + Z.to_nat (byte_val lenb) /\
    off st + 2 <= off st' /\
    length (ies st') = S (length (ies st)).
Proof.
  intros H. apply ies_step_inv in H as (idb & lenb & _ & Hlen & ->).
  exists lenb. simpl. rewrite length_app. simpl. repeat split; auto; lia.
Qed.

Lemma ies_loop_total fuel buf st :
  length buf - off st <= fuel -> exists r, ies_loop fuel buf st = Some r.
Proof.
  revert st. induction fuel as [|fuel IH]; intros st Hf;
    rewrite ies_loop_unfold; destruct (Nat.ltb_spec (off st) (length buf));
    eauto; try lia.
  destruct (ies_step buf st) as [st'|e] eqn:Hstep; eauto.
  apply IH. apply ies_step_advance in Hstep as (? & _ & _ & ? & _). lia.
Qed.

Lemma ies_loop_fuel fuel fuel' buf st :
  length buf - off st <= fuel -> length buf - off st <= fuel' ->
  ies_loop fuel buf st = ies_loop fuel' buf st.
Proof.
  revert fuel' st. induction fuel as [|fuel IH]; intros fuel' st Hf Hf';
    rewrite (ies_loop_unfold _ buf st), (ies_loop_unfold fuel' buf st);
    destruct (Nat.ltb_spec (off st) (length buf)); try reflexivity; try lia.
  destruct fuel' as [|fuel']; [lia|].
  destruct (ies_step buf st) as [st'|e] eqn:Hstep; [|reflexivity].
  apply ies_step_advance in Hstep as (? & _ & _ & ? & _). apply IH; lia.
Qed.

Lemma bytes_slice_shift (pre buf : list byte) lo hi :
  bytes_slice (pre ++ buf) (length pre + lo) (length pre + hi) =
  bytes_slice buf lo hi.
Proof.
  unfold bytes_slice. rewrite drop_app_add.
  f_equal. lia.
Qed.

(** A pass over [pre ++ buf] at an offset inside [buf] is the pass over
    [buf], shifted. *)
Lemma ies_step_shift pre buf acc st :
  ies_step (pre ++ buf) (shift_state (length pre) acc st) =
  shift_state (length pre) acc <$> ies_step buf st.
Proof.
  assert (Hl : forall i, (pre ++ buf) !! (length pre + i) = buf !! i).
  { intros i. rewrite lookup_app_r by lia. f_equal. lia. }
  destruct (buf !! (off st + 1)) as [lenb|] eqn:Hlen.
  - destruct (buf !! off st) as [idb|] eqn:Hid.
    + rewrite (ies_step_ok buf st idb lenb Hid Hlen).
      rewrite (ies_step_ok (pre ++ buf) _ idb lenb); simpl.
      * unfold shift_state. simpl.
        rewrite <- !Nat.add_assoc, bytes_slice_shift, app_assoc.
        reflexivity.
      * rewrite Hl. exact Hid.
      * rewrite <- Nat.add_assoc, Hl. exact Hlen.
    + apply lookup_ge_None in Hid. apply lookup_lt_Some in Hlen. lia.
  - rewrite (ies_step_no_len buf st Hlen).
    apply ies_step_no_len. simpl. rewrite <- Nat.add_assoc, Hl. exact Hlen.
Qed.

Lemma ies_loop_shift fuel pre buf acc st :
  ies_loop fuel (pre ++ buf) (shift_state (length pre) acc st) =
  fmap (M:=result) (shift_state (length pre) acc) <$> ies_loop fuel buf st.
Proof.
  revert st. induction fuel as [|fuel IH]; intros st;
    rewrite (ies_loop_unfold _ (pre ++ buf)), (ies_loop_unfold _ buf);
    rewrite length_app; simpl;
    destruct (Nat.ltb_spec (off st) (length buf)) as [Hlt|Hge];
    destruct (Nat.ltb_spec (length pre + off st) (length pre + length buf));
    try lia; try reflexivity.
  rewrite ies_step_shift.
  destruct (ies_step buf st) as [st'|e]; simpl; [apply IH | reflexivity].
Qed.

Lemma ie_wire_length e : length (ie_wire e) = 2 + length (raw_payload e).
Proof. reflexivity. Qed.

(** The first pass over a buffer that starts with a whole element. *)
Lemma ies_step_first e rest :
  wf_ie e ->
  ies_step (ie_wire e ++ rest) ies_init =
  Ok (shift_state (length (ie_wire e)) [ie_parsed e] ies_init).
Proof.
  intros Hwf. destruct e as [idb lenb payload]. unfold wf_ie in Hwf.
  simpl in Hwf.
  rewrite (ies_step_ok _ _ idb lenb) by reflexivity.
  unfold shift_state, ie_parsed, ie_wire, bytes_slice. simpl.
  rewrite <- Hwf, take_app_length, Nat.add_0_r. reflexivity.
Qed.

(** The run over a whole element followed by [rest] is the run over
    [rest], with the element in front and the offsets moved. *)
Lemma unpack_run_cons e rest :
  wf_ie e ->
  unpack_run (ie_wire e ++ rest) =
  fmap (M:=result) (shift_state (length (ie_wire e)) [ie_parsed e])
  <$> unpack_run rest.
Proof.
  intros Hwf. unfold unpack_run.
  rewrite length_app, ie_wire_length. simpl Nat.add.
  rewrite ies_loop_unfold. simpl off.
  destruct (Nat.ltb_spec 0 (length (ie_wire e ++ rest))) as [_|H];
    [|rewrite length_app, ie_wire_length in H; lia].
  rewrite ies_step_first by exact Hwf.
  rewrite ies_loop_shift. f_equal.
  apply ies_loop_fuel; simpl; lia.
Qed.

Lemma unpack_ies_cons e rest :
  wf_ie e ->
  _unpack_ies (ie_wire e ++ rest) =
  fmap (M:=result) (cons (ie_parsed e)) <$> _unpack_ies rest.
Proof.
  intros Hwf. unfold _unpack_ies. rewrite unpack_run_cons by exact Hwf.
  destruct (unpack_run rest) as [[st|err]|]; reflexivity.
Qed.

Lemma unpack_run_nil : unpack_run [] = Some (Ok ies_init).
Proof. reflexivity. Qed.

(** The run over a buffer of whole elements. *)
Lemma unpack_run_whole es :
  Forall wf_ie es ->
  unpack_run (ies_wire es) =
  Some (Ok (mk_state (ie_parsed <$> es) (length (ies_wire es)))).
Proof.
  induction 1 as [|e es Hwf _ IH].
  - reflexivity.
  - change (ies_wire (e :: es)) with (ie_wire e ++ ies_wire es).
    rewrite unpack_run_cons, IH by exact Hwf. simpl.
    unfold shift_state. simpl. rewrite length_app. reflexivity.
Qed.

Lemma ies_wire_cons e es tail :
  ies_wire (e :: es) ++ tail = ie_wire e ++ (ies_wire es ++ tail).
Proof. unfold ies_wire. simpl. rewrite <- app_assoc. reflexivity. Qed.

Lemma ie_parsed_fields e :
  ie_id (ie_parsed e) = Some (byte_val (raw_id e)) /\
  ie_len (ie_parsed e) = Some (byte_val (raw_len e)) /\
  ie_payload (ie_parsed e) = raw_payload e /\
  ie_parser (ie_parsed e) = ie_parser_for (byte_val (raw_id e)).
Proof. destruct e; repeat split. Qed.

(** C6: on a buffer that is exactly N whole elements one after the
    other, the loop ends with the offset equal to the buffer length and
    [_unpack_ies] returns exactly N objects, the i-th with the id byte,
    the length byte and the payload bytes of the i-th element; the buffer
    00 03 41 42 43 01 02 82 84 gives two objects: id 0, length 3, payload
    "ABC", and id 1, length 2, payload 82 84. *)
Theorem unpack_ies_whole_elements (es : list raw_ie) (Hwf : Forall wf_ie es) :
  unpack_run (ies_wire es) =
    Some (Ok (mk_state (ie_parsed <$> es) (length (ies_wire es)))) /\
  _unpack_ies (ies_wire es) = Some (Ok (ie_parsed <$> es)) /\
  length (ie_parsed <$> es) = length es /\
  (forall i e,
      es !! i = Some e ->
      exists p,
        (ie_parsed <$> es) !! i = Some p /\
        ie_id p = Some (byte_val (raw_id e)) /\
        ie_len p = Some (byte_val (raw_len e)) /\
        ie_payload p = raw_payload e) /\
  _unpack_ies [x00; x03; x41; x42; x43; x01; x02; x82; x84] =
    Some (Ok [mk_ie IE [x00; x03; x41; x42; x43];
              mk_ie IE [x01; x02; x82; x84]]).
Proof.
  pose proof (unpack_run_whole es Hwf) as Hrun.
  split; [exact Hrun|]. split; [|split; [|split]].
  - unfold _unpack_ies. rewrite Hrun. reflexivity.
  - apply length_fmap.
  - intros i e Hi. exists (ie_parsed e). split.
    + rewrite list_lookup_fmap, Hi. reflexivity.
    + destruct (ie_parsed_fields e) as (? & ? & ? & _). auto.
  - reflexivity.
Qed.

Lemma unpack_ies_whole_elements_witness :
  _unpack_ies (ies_wire [mk_raw x00 x03 [x41; x42; x43];
                         mk_raw x01 x02 [x82; x84]]) =
  Some (Ok (ie_parsed <$> [mk_raw x00 x03 [x41; x42; x43];
                           mk_raw x01 x02 [x82; x84]])).
Proof.
  apply (unpack_ies_whole_elements
           [mk_raw x00 x03 [x41; x42; x43]; mk_raw x01 x02 [x82; x84]]).
  repeat constructor.
Defined.

(** The table of element ids. *)
Lemma ie_decoder_dom k :
  is_Some (ie_decoder !! k) <->
  k ∈ [0; 1; 2; 3; 4; 5; 6; 45; 50; 61]%Z.
Proof.
  split.
  - intros [cls Hk]. apply dict_of_lookup_elem in Hk.
    unfold ie_decoder_items in Hk.
    elem_of_cases Hk; injection Hk as -> _; vm_compute;
      repeat (first [apply list_elem_of_here | apply list_elem_of_further]).
  - intros Hk. elem_of_cases Hk; subst k; vm_compute; eauto.
Qed.

(** C8: an element whose id is not a key of [ie_decoder] (the keys are
    exactly 0, 1, 2, 3, 4, 5, 6, 45, 50 and 61) is built with the generic
    class [IE] over its own bytes, payload included; the pass raises
    nothing and the loop goes on with the bytes that follow. *)
Theorem unknown_id_generic_ie (e : raw_ie) (pre rest : list byte)
  (acc : list ie_packet)
  (Hid : ie_decoder !! byte_val (raw_id e) = None) (Hwf : wf_ie e) :
  (forall k,
      is_Some (ie_decoder !! k) <->
      k ∈ [0; 1; 2; 3; 4; 5; 6; 45; 50; 61]%Z) /\
  ie_parsed e = mk_ie IE (ie_wire e) /\
  ie_payload (ie_parsed e) = raw_payload e /\
  ies_step (pre ++ ie_wire e ++ rest) (mk_state acc (length pre)) =
    Ok (mk_state (acc ++ [mk_ie IE (ie_wire e)])
                 (length pre + length (ie_wire e))) /\
  _unpack_ies (ie_wire e ++ rest) =
    (fmap (M:=result) (cons (mk_ie IE (ie_wire e))) <$> _unpack_ies rest).
Proof.
  assert (Hp : ie_parsed e = mk_ie IE (ie_wire e)).
  { unfold ie_parsed, ie_parser_for. rewrite Hid. reflexivity. }
  split; [apply ie_decoder_dom|]. split; [exact Hp|].
  split; [apply ie_parsed_fields|]. split.
  - pose proof (ies_step_shift pre (ie_wire e ++ rest) acc ies_init) as Hs.
    rewrite ies_step_first in Hs by exact Hwf.
    unfold shift_state in Hs. simpl in Hs.
    rewrite app_nil_r, !Nat.add_0_r, Hp in Hs. exact Hs.
  - rewrite unpack_ies_cons, Hp by exact Hwf. reflexivity.
Qed.

Lemma unknown_id_generic_ie_witness :
  _unpack_ies (ie_wire (mk_raw xdd x02 [xaa; xbb]) ++ [x00; x01; x41]) =
  Some (Ok [mk_ie IE [xdd; x02; xaa; xbb]; mk_ie IE [x00; x01; x41]]).
Proof.
  destruct (unknown_id_generic_ie (mk_raw xdd x02 [xaa; xbb]) []
              [x00; x01; x41] [])
    as (_ & _ & _ & _ & H); [reflexivity | reflexivity |].
  rewrite H. reflexivity.
Defined.

(** The objects collected by a run that returns are at most
    [(len(buf) + 1) / 2]. *)
Lemma ies_loop_count fuel buf st st_f :
  ies_loop fuel buf st = Some (Ok st_f) ->
  2 * length (ies st) <= off st ->
  st_f = st \/ 2 * length (ies st_f) <= length buf + 1.
Proof.
  revert st. induction fuel as [|fuel IH]; intros st H Hinv;
    rewrite ies_loop_unfold in H;
    destruct (Nat.ltb_spec (off st) (length buf)) as [Hlt|Hge];
    try discriminate; try (injection H as <-; left; reflexivity).
  destruct (ies_step buf st) as [st'|err] eqn:Hstep; [|discriminate].
  apply ies_step_advance in Hstep as (lenb & _ & _ & Hoff & Hlen).
  destruct (IH st' H) as [->|Hb]; [lia | right; lia | right; exact Hb].
Qed.

(** C9: on every buffer the loop of [_unpack_ies] stops.  Each pass that
    does not raise moves the offset forward by 2 plus the declared
    length, so by at least 2; [len(buf)] passes are always enough (more
    fuel changes nothing), so [_unpack_ies] has a result for every
    buffer, and a returned list is no longer than the buffer. *)
Theorem unpack_ies_terminates (buf : list byte) :
  (forall st st',
      ies_step buf st = Ok st' ->
      exists lenb,
        buf !! (off st + 1) = Some lenb /\
        off st' = off st + 2 + Z.to_nat (byte_val lenb) /\
        off st + 2 <= off st') /\
  (exists r, unpack_run buf = Some r) /\
  (exists r, _unpack_ies buf = Some r) /\
  (forall fuel,
      length buf <= fuel -> ies_loop fuel buf ies_init = unpack_run buf) /\
  (forall l, _unpack_ies buf = Some (Ok l) -> length l <= length buf).
Proof.
  assert (Htot : exists r, unpack_run buf = Some r).
  { apply ies_loop_total. simpl. lia. }
  split; [|split; [exact Htot|split; [|split]]].
  - intros st st' H.
    apply ies_step_advance in H as (lenb & ? & ? & ? & _). eauto.
  - destruct Htot as [r Hr]. unfold _unpack_ies. rewrite Hr. simpl. eauto.
  - intros fuel Hf. apply ies_loop_fuel; simpl; lia.
  - intros l Hl. unfold _unpack_ies in Hl.
    destruct (unpack_run buf) as [[st|err]|] eqn:Hrun; try discriminate.
    injection Hl as <-. apply ies_loop_count in Hrun; [|simpl; lia].
    destruct Hrun as [->|Hb]; simpl; lia.
Qed.

(** The run over a buffer that ends after an id byte. *)
Lemma unpack_ies_no_len_byte idb :
  _unpack_ies [idb] = Some (Raise IndexError).
Proof. reflexivity. Qed.

(** The run over a single element whose payload is cut short. *)
Lemma unpack_ies_short_payload idb lenb partial :
  length partial < Z.to_nat (byte_val lenb) ->
  _unpack_ies (idb :: lenb :: partial) =
  Some (Ok [mk_ie (ie_parser_for (byte_val idb)) (idb :: lenb :: partial)]).
Proof.
  intros Hshort. unfold _unpack_ies, unpack_run. simpl length.
  rewrite ies_loop_unfold. simpl off.
  destruct (Nat.ltb_spec 0 (S (S (length partial)))); [|lia].
  rewrite (ies_step_ok _ _ idb lenb) by reflexivity.
  rewrite ies_loop_unfold. simpl.
  destruct (Nat.ltb_spec (S (S (Z.to_nat (byte_val lenb))))
                         (S (S (length partial)))); [lia|].
  simpl. unfold bytes_slice. simpl.
  rewrite take_ge by lia. reflexivity.
Qed.

(** C2 (as stated) fails: on 00 03 41 the declared payload of three
    bytes overruns the buffer, yet [_unpack_ies] returns normally, with
    no error, a list holding an object cut short (length byte 3, one
    payload byte); and on the single byte 00, where the length byte is
    missing, it raises [IndexError] and returns no list at all. *)
Lemma unpack_ies_truncated_counterexample :
  _unpack_ies [x00; x03; x41] = Some (Ok [mk_ie IE [x00; x03; x41]]) /\
  ie_len (mk_ie IE [x00; x03; x41]) = Some 3%Z /\
  ie_payload (mk_ie IE [x00; x03; x41]) = [x41] /\
  _unpack_ies [x00] = Some (Raise IndexError) /\
  ~ (forall buf l,
        _unpack_ies buf = Some (Ok l) -> Forall whole_element l).
Proof.
  repeat split.
  intros H. specialize (H [x00; x03; x41] _ eq_refl).
  apply Forall_cons in H as [H _]. discriminate H.
Qed.

(** C2 (amended): after any run of whole elements, a last element whose
    declared payload overruns the buffer makes [_unpack_ies] stop and
    return, without any error, the objects of the whole elements followed
    by one object over the bytes that are left (the slice is clamped to
    the buffer end, so no byte outside the buffer is used and the bytes
    of the returned objects are those of the buffer); a last element
    whose length byte is missing makes the read of that byte raise
    [IndexError]. *)
Theorem unpack_ies_truncated (es : list raw_ie) (idb lenb : byte)
  (partial : list byte)
  (Hwf : Forall wf_ie es)
  (Hshort : length partial < Z.to_nat (byte_val lenb)) :
  _unpack_ies (ies_wire es ++ idb :: lenb :: partial) =
    Some (Ok ((ie_parsed <$> es) ++
              [mk_ie (ie_parser_for (byte_val idb)) (idb :: lenb :: partial)])) /\
  concat (ie_bytes <$>
            ((ie_parsed <$> es) ++
             [mk_ie (ie_parser_for (byte_val idb)) (idb :: lenb :: partial)])) =
    ies_wire es ++ idb :: lenb :: partial /\
  ~ whole_element
      (mk_ie (ie_parser_for (byte_val idb)) (idb :: lenb :: partial)) /\
  _unpack_ies (ies_wire es ++ [idb]) = Some (Raise IndexError).
Proof.
  split; [|split; [|split]].
  - induction Hwf as [|e es He _ IH].
    + apply unpack_ies_short_payload. exact Hshort.
    + rewrite ies_wire_cons, unpack_ies_cons, IH by exact He. reflexivity.
  - rewrite fmap_app, concat_app. simpl. rewrite app_nil_r. f_equal.
    unfold ies_wire. rewrite <- list_fmap_compose. reflexivity.
  - unfold whole_element, ie_len, ie_payload. simpl. intros H.
    injection H as H. rewrite drop_0 in H. lia.
  - induction Hwf as [|e es He _ IH].
    + apply unpack_ies_no_len_byte.
    + rewrite ies_wire_cons, unpack_ies_cons, IH by exact He. reflexivity.
Qed.

Lemma unpack_ies_truncated_witness :
  _unpack_ies (ies_wire [mk_raw x00 x03 [x41; x42; x43]] ++ [x01; x02; x82]) =
    Some (Ok [mk_ie IE [x00; x03; x41; x42; x43]; mk_ie IE [x01; x02; x82]]) /\
  _unpack_ies (ies_wire [mk_raw x00 x03 [x41; x42; x43]] ++ [x01]) =
    Some (Raise IndexError).
Proof.
  destruct (unpack_ies_truncated [mk_raw x00 x03 [x41; x42; x43]]
              x01 x02 [x82]) as (H1 & _ & _ & H2).
  - repeat constructor.
  - vm_compute. lia.
  - split; [exact H1 | exact H2].
Defined.

(** ** More on the frame-control codec *)

Local Open Scope Z_scope.

Lemma fget_testbit f w j :
  0 <= j ->
  Z.testbit (fget f w) j = Z.testbit w (j + fshift f) && (j <? fwidth f).
Proof.
  intros Hj. rewrite fget_bits, fmask_ones.
  apply get_bits_testbit; auto using fwidth_nonneg, fshift_nonneg.
Qed.

Lemma fset_testbit f v w i :
  0 <= i ->
  Z.testbit (fset f v w) i =
  Z.testbit v (i - fshift f)
  || (Z.testbit w i && negb ((fshift f <=? i) && (i <? fshift f + fwidth f))).
Proof.
  intros Hi. rewrite fset_bits, fmask_ones.
  apply set_bits_testbit; auto using fwidth_nonneg, fshift_nonneg.
Qed.

(** A bit of a value that fits is set only inside the field. *)
Lemma fits_shifted_testbit f v i :
  0 <= v < 2 ^ fwidth f ->
  Z.testbit v (i - fshift f) = true ->
  fshift f <= i < fshift f + fwidth f.
Proof.
  intros Hv Hb.
  destruct (Z.lt_ge_cases (i - fshift f) 0) as [Hneg|Hpos].
  - rewrite Z.testbit_neg_r in Hb by exact Hneg. discriminate.
  - destruct (Z.lt_ge_cases (i - fshift f) (fwidth f)) as [Hlt|Hge]; [lia|].
    rewrite (fits_testbit (fwidth f) (fwidth_nonneg f) v (i - fshift f) Hv Hge)
      in Hb.
    discriminate.
Qed.

Lemma fits_shifted_outside f v i :
  0 <= v < 2 ^ fwidth f ->
  (fshift f <=? i) && (i <? fshift f + fwidth f) = false ->
  Z.testbit v (i - fshift f) = false.
Proof.
  intros Hv Hout. destruct (Z.testbit v (i - fshift f)) eqn:Hb; [|reflexivity].
  apply fits_shifted_testbit in Hb; [|exact Hv].
  destruct (Z.leb_spec (fshift f) i), (Z.ltb_spec i (fshift f + fwidth f));
    simpl in Hout; try lia; discriminate.
Qed.

Lemma fields_top f : fshift f + fwidth f <= 16.
Proof. destruct f; cbv; discriminate. Qed.

Lemma word16_testbit w i : 0 <= w < 65536 -> 16 <= i -> Z.testbit w i = false.
Proof. intros Hw Hi. apply (fits_testbit 16); [lia | exact Hw | exact Hi]. Qed.

Lemma word16_of_testbit w :
  (forall i, 16 <= i -> Z.testbit w i = false) -> 0 <= w < 65536.
Proof.
  intros H. assert (Hm : w mod 2 ^ 16 = w).
  { rewrite <- Z.land_ones by lia. apply Z.bits_inj'. intros i Hi.
    rewrite Z.land_spec. destruct (Z.lt_ge_cases i 16).
    - rewrite Z.ones_spec_low by lia. apply andb_true_r.
    - rewrite Z.ones_spec_high by lia. rewrite H by lia. reflexivity. }
  rewrite <- Hm. apply Z.mod_pos_bound. lia.
Qed.

Lemma field_at_covers i :
  0 <= i < 16 ->
  fshift (field_at i) <= i < fshift (field_at i) + fwidth (field_at i).
Proof.
  intros Hi. unfold field_at.
  repeat match goal with
         | |- context [?a <? ?b] => destruct (Z.ltb_spec a b)
         end; cbv [fshift fwidth]; unfold _TO_DS_SHIFT, _FROM_DS_SHIFT,
    _MORE_FRAG_SHIFT, _RETRY_SHIFT, _PWR_MGT_SHIFT, _MORE_DATA_SHIFT,
    _PROTECTED_SHIFT, _ORDER_SHIFT, _VERSION_SHIFT, _TYPE_SHIFT,
    _SUBTYPE_SHIFT; lia.
Qed.

(** X1: what a setter stores is what the getter of the same field then
    reads, for every integer control word and every value that fits the
    field. *)
Theorem field_read_back (f : field) (v w : Z) (Hv : 0 <= v < 2 ^ fwidth f) :
  fget f (fset f v w) = v.
Proof. apply fget_fset. exact Hv. Qed.

Lemma field_read_back_witness : fget subtype (fset subtype 12 0x8041) = 12.
Proof. apply (field_read_back subtype 12 0x8041). simpl. lia. Defined.

(** X2: a setter given a 16-bit control word and a value that fits the
    field stores a 16-bit control word again. *)
Theorem field_set_stays_16bit (f : field) (v w : Z)
  (Hw : 0 <= w < 65536) (Hv : 0 <= v < 2 ^ fwidth f) :
  0 <= fset f v w < 65536.
Proof.
  apply word16_of_testbit. intros i Hi.
  rewrite fset_testbit by lia.
  rewrite (word16_testbit w i Hw Hi). simpl.
  rewrite orb_false_r. apply fits_shifted_outside; [exact Hv|].
  pose proof (fields_top f).
  destruct (Z.leb_spec (fshift f) i), (Z.ltb_spec i (fshift f + fwidth f));
    simpl; try lia; reflexivity.
Qed.

Lemma field_set_stays_16bit_witness : 0 <= fset subtype 15 0xffff < 65536.
Proof.
  apply (field_set_stays_16bit subtype 15 0xffff); [lia | simpl; lia].
Defined.

(** X3: the eleven fields hold the whole control word: two 16-bit words
    on which every getter reads the same value are equal. *)
Theorem fields_determine_word (w w' : Z)
  (Hw : 0 <= w < 65536) (Hw' : 0 <= w' < 65536)
  (Hf : forall f, fget f w = fget f w') :
  w = w'.
Proof.
  apply Z.bits_inj'. intros i Hi.
  destruct (Z.lt_ge_cases i 16) as [Hlt|Hge].
  - pose proof (field_at_covers i (conj Hi Hlt)) as Hc.
    pose proof (f_equal (fun x => Z.testbit x (i - fshift (field_at i)))
                        (Hf (field_at i))) as Hb.
    simpl in Hb. rewrite !fget_testbit in Hb by lia.
    replace (i - fshift (field_at i) + fshift (field_at i)) with i in Hb by lia.
    destruct (Z.ltb_spec (i - fshift (field_at i)) (fwidth (field_at i)));
      [|lia].
    rewrite !andb_true_r in Hb. exact Hb.
  - rewrite !word16_testbit by assumption. reflexivity.
Qed.

Lemma fields_determine_word_witness :
  fset to_ds 1 (fset subtype 8 0) = 0x8001.
Proof.
  apply (fields_determine_word (fset to_ds 1 (fset subtype 8 0)) 0x8001);
    [vm_compute; split; congruence | lia | intros f; destruct f; reflexivity].
Defined.

(** X4: setters compose as assignments to separate variables do: with
    values that fit, writes to two different fields give the same word
    in either order, and of two writes to the same field only the last
    one shows. *)
Theorem field_sets_compose (f g : field) (v u w : Z)
  (Hv : 0 <= v < 2 ^ fwidth f) (Hu : 0 <= u < 2 ^ fwidth g) :
  (f <> g -> fset f v (fset g u w) = fset g u (fset f v w)) /\
  (f = g -> fset f v (fset g u w) = fset f v w).
Proof.
  split.
  - intros Hfg. apply Z.bits_inj'. intros i Hi.
    rewrite !fset_testbit by lia.
    pose proof (fields_disjoint_ranges f g Hfg) as Hd.
    destruct (Z.testbit v (i - fshift f)) eqn:Hbv;
      destruct (Z.testbit u (i - fshift g)) eqn:Hbu; simpl.
    + apply fits_shifted_testbit in Hbv; [|exact Hv].
      apply fits_shifted_testbit in Hbu; [|exact Hu]. lia.
    + apply fits_shifted_testbit in Hbv; [|exact Hv].
      destruct (Z.leb_spec (fshift g) i), (Z.ltb_spec i (fshift g + fwidth g));
        simpl; try lia; reflexivity.
    + apply fits_shifted_testbit in Hbu; [|exact Hu].
      destruct (Z.leb_spec (fshift f) i), (Z.ltb_spec i (fshift f + fwidth f));
        simpl; try lia; reflexivity.
    + destruct (Z.testbit w i),
        ((fshift f <=? i) && (i <? fshift f + fwidth f)),
        ((fshift g <=? i) && (i <? fshift g + fwidth g)); reflexivity.
  - intros <-. apply Z.bits_inj'. intros i Hi.
    rewrite !fset_testbit by lia.
    destruct ((fshift f <=? i) && (i <? fshift f + fwidth f)) eqn:Hin; simpl.
    + rewrite !andb_false_r, !orb_false_r. reflexivity.
    + rewrite !andb_true_r.
      rewrite (fits_shifted_outside f u i Hu Hin). reflexivity.
Qed.

Lemma field_sets_compose_witness :
  fset type 2 (fset protected 1 0) = fset protected 1 (fset type 2 0) /\
  fset subtype 8 (fset subtype 5 0) = fset subtype 8 0.
Proof.
  split.
  - apply (field_sets_compose type protected 2 1 0);
      [simpl; lia | simpl; lia | discriminate].
  - apply (field_sets_compose subtype subtype 8 5 0);
      [simpl; lia | simpl; lia | reflexivity].
Defined.

(** ** More on the frame header *)

Lemma byte_val_range b : 0 <= byte_val b < 256.
Proof.
  unfold byte_val. pose proof (Byte.to_N_bounded b). lia.
Qed.

(** X5: the layout noted beside [__hdr__] (AAAABBCC | 00000000): in a
    control word read big-endian from two bytes, subtype, type and
    version are the high four, next two and low two bits of the first
    byte, and every flag is one bit of the second byte. *)
Theorem framectl_byte_layout (hi lo : byte) :
  0 <= 256 * byte_val hi + byte_val lo < 65536 /\
  _get_subtype (256 * byte_val hi + byte_val lo) = byte_val hi / 16 /\
  _get_type (256 * byte_val hi + byte_val lo) = (byte_val hi / 4) mod 4 /\
  _get_version (256 * byte_val hi + byte_val lo) = byte_val hi mod 4 /\
  (forall f,
      fwidth f = 1 ->
      fget f (256 * byte_val hi + byte_val lo)
      = (byte_val lo / 2 ^ fshift f) mod 2).
Proof.
  pose proof (byte_val_range hi) as Hhi.
  pose proof (byte_val_range lo) as Hlo.
  split; [lia|]. split; [|split; [|split]].
  - change _get_subtype with (fget subtype). rewrite fget_div_mod.
    change (2 ^ fshift subtype) with 4096. change (2 ^ fwidth subtype) with 16.
    Z.div_mod_to_equations. lia.
  - change _get_type with (fget type). rewrite fget_div_mod.
    change (2 ^ fshift type) with 1024. change (2 ^ fwidth type) with 4.
    Z.div_mod_to_equations. lia.
  - change _get_version with (fget version). rewrite fget_div_mod.
    change (2 ^ fshift version) with 256. change (2 ^ fwidth version) with 4.
    Z.div_mod_to_equations. lia.
  - intros f Hf. rewrite fget_div_mod, Hf.
    destruct f; try discriminate Hf; cbv [fshift]; unfold _TO_DS_SHIFT,
      _FROM_DS_SHIFT, _MORE_FRAG_SHIFT, _RETRY_SHIFT, _PWR_MGT_SHIFT,
      _MORE_DATA_SHIFT, _PROTECTED_SHIFT, _ORDER_SHIFT;
      match goal with
      | |- context [2 ^ ?n] =>
          let p := eval cbv in (2 ^ n) in change (2 ^ n) with p
      end;
      change (2 ^ 1) with 2; Z.div_mod_to_equations; lia.
Qed.

Lemma build_key_type3 s p : build_key 3 s p = Raise IndexError.
Proof. reflexivity. Qed.

Lemma dispatch_key_type w :
  (_get_type w = 3 -> dispatch_key w = Raise IndexError) /\
  (forall k, dispatch_key w = Ok k -> 0 <= _get_type w <= 2).
Proof.
  split.
  - intros H. unfold dispatch_key. rewrite H. apply build_key_type3.
  - intros k Hk. pose proof (fget_range type w) as Hr. simpl in Hr.
    destruct (decide (_get_type w = 3)) as [H3|H3]; [|lia].
    unfold dispatch_key in Hk. rewrite H3, build_key_type3 in Hk.
    discriminate.
Qed.

(** X6: [_dissect] raises [struct.error] exactly on a buffer shorter
    than two bytes, raises [IndexError] exactly when the type bits of the
    control word are 3, and in every other case stores the control word
    and hands the bytes from offset 4 on to the handler selected by the
    dispatch key. *)
Theorem dissect_outcomes (buf : list byte) :
  (_dissect buf = Raise StructError <-> (length buf < 2)%nat) /\
  (_dissect buf = Raise IndexError <->
   exists hi lo tail,
     buf = hi :: lo :: tail /\
     _get_type (256 * byte_val hi + byte_val lo) = 3) /\
  (forall w h,
      _dissect buf = Ok (w, h) <->
      exists hi lo tail k,
        buf = hi :: lo :: tail /\
        w = 256 * byte_val hi + byte_val lo /\
        _get_type w <> 3 /\
        dispatch_key w = Ok k /\
        h = _parse_handler k (drop 4 buf)).
Proof.
  destruct buf as [|hi [|lo tail]].
  - split; [|split].
    + split; [simpl; lia | reflexivity].
    + split; [discriminate | intros (? & ? & ? & H & _); discriminate H].
    + intros w h. split;
        [discriminate | intros (? & ? & ? & ? & H & _); discriminate H].
  - split; [|split].
    + split; [simpl; lia | reflexivity].
    + split; [discriminate | intros (? & ? & ? & H & _); discriminate H].
    + intros w h. split;
        [discriminate | intros (? & ? & ? & ? & H & _); discriminate H].
  - rewrite dissect_header.
    set (w0 := 256 * byte_val hi + byte_val lo).
    destruct (dispatch_key_type w0) as [H3 Hok].
    destruct (decide (_get_type w0 = 3)) as [Ht|Ht].
    + rewrite (H3 Ht). split; [|split].
      * split; [discriminate | simpl; lia].
      * split; [|reflexivity]. intros _. exists hi, lo, tail. auto.
      * intros w h. split; [discriminate|].
        intros (hi' & lo' & tail' & k & Hb & -> & Hne & _).
        injection Hb as <- <- <-. contradiction.
    + rewrite (dispatch_key_ok w0 Ht). split; [|split].
      * split; [discriminate | simpl; lia].
      * split; [discriminate|].
        intros (hi' & lo' & tail' & Hb & H). injection Hb as <- <- <-.
        contradiction.
      * intros w h. split.
        -- intros H. injection H as <- <-.
           exists hi, lo, tail. eexists.
           repeat split; [exact Ht | apply dispatch_key_ok; exact Ht].
        -- intros (hi' & lo' & tail' & k & Hb & -> & Hne & Hk & ->).
           injection Hb as <- <- <-. fold w0 in Hk.
           rewrite (dispatch_key_ok w0 Ht) in Hk. injection Hk as <-.
           reflexivity.
Qed.

Lemma type_factor_range t : 0 <= t <= 2 -> 16 <= Z.shiftl 16 t <= 64.
Proof. intros Ht. Z_enum t; cbv; intuition discriminate. Qed.

(** X7: the dispatch key of a control word lies between 16 and 207 and
    fixes the word's type, subtype and protected bit: two control words
    (any integers) with the same key agree on all three. *)
Theorem dispatch_key_determines_fields (w w' k : Z)
  (Hk : dispatch_key w = Ok k) (Hk' : dispatch_key w' = Ok k) :
  16 <= k <= 207 /\
  _get_type w = _get_type w' /\
  _get_subtype w = _get_subtype w' /\
  _get_protected w = _get_protected w'.
Proof.
  destruct (dispatch_key_type w) as [_ Ht].
  destruct (dispatch_key_type w') as [_ Ht'].
  specialize (Ht k Hk). specialize (Ht' k Hk').
  pose proof (fget_range subtype w) as Hs.
  pose proof (fget_range subtype w') as Hs'.
  pose proof (fget_range protected w) as Hp.
  pose proof (fget_range protected w') as Hp'.
  simpl in Hs, Hs', Hp, Hp'.
  change (2 ^ 4) with 16 in Hs, Hs'. change (2 ^ 1) with 2 in Hp, Hp'.
  split.
  - unfold dispatch_key in Hk. rewrite build_key_ok in Hk by exact Ht.
    injection Hk as <-.
    assert (Hsh : 16 <= Z.shiftl 16 (_get_type w) <= 64).
    { apply type_factor_range. exact Ht. }
    case_decide; lia.
  - unfold dispatch_key in Hk, Hk'.
    apply (build_key_injective _ _ _ _ _ _ k); auto; lia.
Qed.

Lemma dispatch_key_determines_fields_witness :
  16 <= 204 <= 207 /\
  _get_type 0xc840 = _get_type 0xcb7f /\
  _get_subtype 0xc840 = _get_subtype 0xcb7f /\
  _get_protected 0xc840 = _get_protected 0xcb7f.
Proof.
  apply (dispatch_key_determines_fields 0xc840 0xcb7f 204); reflexivity.
Defined.


(** X8: the dispatch key looks at type, subtype and protected only:
    writing any other field (version, to_ds, from_ds, more_frag, retry,
    pwr_mgt, more_data, order) with a value that fits leaves the key, and
    so the handler chosen, unchanged. *)
Theorem dispatch_key_ignores_other_fields (f : field) (v w : Z)
  (Hf : f <> type /\ f <> subtype /\ f <> protected)
  (Hv : 0 <= v < 2 ^ fwidth f) :
  dispatch_key (fset f v w) = dispatch_key w.
Proof.
  destruct Hf as (Ht & Hs & Hp). unfold dispatch_key.
  change _get_type with (fget type). change _get_subtype with (fget subtype).
  change _get_protected with (fget protected).
  rewrite !fget_fset_other by assumption. reflexivity.
Qed.

Lemma dispatch_key_ignores_other_fields_witness :
  dispatch_key (fset retry 1 0x8000) = dispatch_key 0x8000.
Proof.
  apply (dispatch_key_ignores_other_fields retry 1 0x8000);
    [repeat split; discriminate | simpl; lia].
Defined.

(** ** More on the registry *)

(** Closes a goal about nested [decide]s on keys and schemas. *)
Ltac decide_keys :=
  repeat case_decide;
  repeat match goal with H : _ /\ _ |- _ => destruct H end;
  first
    [ reflexivity
    | lia
    | congruence
    | exfalso; lia
    | exfalso;
      match goal with
      | H : ~ _ |- _ => apply H; repeat split; (lia || congruence)
      end ].

Lemma register_item_lookup pos reg s b :
  0 <= pos <= 2 ->
  exists reg',
    register_item pos reg (s, b) = Ok reg' /\
    forall k,
      reg' !! k =
      if decide (pos = 2 /\ k = 64 + s + 128 /\ b = Dataframe)
      then Some DataframeSecured
      else if decide (pos = 2 /\ k = 64 + s + 128 /\ b = DataframeQos)
      then Some DataframeQosSecured
      else if decide (k = Z.shiftl 16 pos + s) then Some b
      else reg !! k.
Proof.
  intros Hpos. unfold register_item.
  Z_enum pos; simpl.
  - eexists. split; [reflexivity|]. intros k.
    change (Z.shiftl 16 0) with 16.
    rewrite lookup_insert. decide_keys.
  - eexists. split; [reflexivity|]. intros k.
    change (Z.shiftl 16 1) with 32.
    rewrite lookup_insert. decide_keys.
  - change (Z.shiftl 16 2) with 64. unfold TYPE_FACTOR_PROTECTED.
    destruct (decide (b = Dataframe)) as [->|Hb1];
      [|destruct (decide (b = DataframeQos)) as [->|Hb2]];
      (eexists; split; [reflexivity|]); intros k;
      rewrite ?lookup_insert; decide_keys.
Qed.

Lemma for_each_cons {A S : Type} (f : S -> A -> result S) a l s :
  for_each f (a :: l) s = f s a ≫= for_each f l.
Proof. reflexivity. Qed.

(** What one run of the inner loop over [items] leaves in the registry. *)
Lemma for_each_register_lookup pos items reg :
  0 <= pos <= 2 ->
  NoDup items.*1 ->
  Forall (fun kv : Z * body => 0 <= kv.1 <= 15) items ->
  exists reg',
    for_each (register_item pos) items reg = Ok reg' /\
    (forall s b,
        (s, b) ∈ items ->
        reg' !! (Z.shiftl 16 pos + s) = Some b /\
        (pos = 2 -> b = Dataframe ->
         reg' !! (64 + s + 128) = Some DataframeSecured) /\
        (pos = 2 -> b = DataframeQos ->
         reg' !! (64 + s + 128) = Some DataframeQosSecured)) /\
    (forall k,
        (forall s, 0 <= s <= 15 ->
                   k <> Z.shiftl 16 pos + s /\ k <> 64 + s + 128) ->
        reg' !! k = reg !! k) /\
    (forall k s,
        0 <= s <= 15 -> s ∉ items.*1 ->
        k = Z.shiftl 16 pos + s \/ k = 64 + s + 128 ->
        reg' !! k = reg !! k).
Proof.
  intros Hpos. pose proof (type_factor_range pos Hpos) as Htf.
  assert (Hp2 : pos = 2 -> Z.shiftl 16 pos = 64) by (intros ->; reflexivity).
  revert reg. induction items as [|[s0 b0] items IH]; intros reg Hnd Hr.
  - exists reg. split; [reflexivity|]. split; [|split].
    + intros s b Hin. apply elem_of_nil in Hin. destruct Hin.
    + reflexivity.
    + reflexivity.
  - apply NoDup_cons in Hnd as [Hnin Hnd].
    apply Forall_cons in Hr as [Hs0 Hr]. simpl in Hs0, Hnin.
    destruct (register_item_lookup pos reg s0 b0 Hpos) as (reg1 & H1 & L1).
    destruct (IH reg1 Hnd Hr) as (reg' & H' & Hin' & Hout' & Hfresh').
    exists reg'. split; [rewrite for_each_cons, H1; exact H'|].
    assert (Hrange : forall s b, (s, b) ∈ items -> 0 <= s <= 15).
    { intros s b Hin. rewrite Forall_forall in Hr. apply (Hr _ Hin). }
    split; [|split].
    + intros s b Hin. apply elem_of_cons in Hin as [Heq|Hin].
      * injection Heq as -> ->.
        rewrite !(Hfresh' _ s0 Hs0 Hnin) by auto.
        rewrite !L1. repeat split.
        -- decide_keys.
        -- intros -> ->. decide_keys.
        -- intros -> ->. decide_keys.
      * apply Hin'. exact Hin.
    + intros k Hk. rewrite Hout' by exact Hk. rewrite L1.
      destruct (Hk s0 Hs0) as [Hk1 Hk2].
      decide_keys.
    + intros k s Hs Hnin_s Hk.
      apply not_elem_of_cons in Hnin_s as [Hne Hnin_s]. simpl in Hne.
      rewrite (Hfresh' k s Hs Hnin_s Hk). rewrite L1.
      decide_keys.
Qed.

Lemma build_decoder_dict_three (m c d : list (Z * body)) :
  build_decoder_dict [m; c; d] =
  for_each (register_item 0) m ∅ ≫= fun r0 =>
  for_each (register_item 1) c r0 ≫= fun r1 =>
  for_each (register_item 2) d r1 ≫= fun r2 => Ok r2.
Proof. reflexivity. Qed.

(** X9: for any three tables whose subtypes are pairwise distinct
    within a table and lie in [0,15], the two loops run to completion
    and the registry holds every entry of the first table at 16+subtype,
    of the second at 32+subtype and of the third at 64+subtype, plus the
    secured variant at 64+subtype+128 for each [Dataframe] or
    [DataframeQos] entry of the third: no entry is overwritten by a
    later one. *)
Theorem registry_holds_tables (m c d : list (Z * body))
  (Hok : Forall (fun tbl : list (Z * body) =>
                   NoDup tbl.*1 /\
                   Forall (fun kv => 0 <= kv.1 <= 15) tbl) [m; c; d]) :
  exists reg,
    build_decoder_dict [m; c; d] = Ok reg /\
    (forall s b, (s, b) ∈ m -> reg !! (16 + s) = Some b) /\
    (forall s b, (s, b) ∈ c -> reg !! (32 + s) = Some b) /\
    (forall s b,
        (s, b) ∈ d ->
        reg !! (64 + s) = Some b /\
        (b = Dataframe -> reg !! (64 + s + 128) = Some DataframeSecured) /\
        (b = DataframeQos ->
         reg !! (64 + s + 128) = Some DataframeQosSecured)).
Proof.
  apply Forall_cons in Hok as [[Nm Rm] Hok].
  apply Forall_cons in Hok as [[Nc Rc] Hok].
  apply Forall_cons in Hok as [[Nd Rd] _].
  destruct (for_each_register_lookup 0 m ∅) as (r0 & H0 & In0 & _ & _);
    [lia | exact Nm | exact Rm |].
  destruct (for_each_register_lookup 1 c r0) as (r1 & H1 & In1 & Out1 & _);
    [lia | exact Nc | exact Rc |].
  destruct (for_each_register_lookup 2 d r1) as (r2 & H2 & In2 & Out2 & _);
    [lia | exact Nd | exact Rd |].
  change (Z.shiftl 16 0) with 16 in *. change (Z.shiftl 16 1) with 32 in *.
  change (Z.shiftl 16 2) with 64 in *.
  assert (Hrange : forall (tbl : list (Z * body)) s b,
             Forall (fun kv => 0 <= kv.1 <= 15) tbl ->
             (s, b) ∈ tbl -> 0 <= s <= 15).
  { intros tbl s b Hr Hin. rewrite Forall_forall in Hr. apply (Hr _ Hin). }
  exists r2. split; [|split; [|split]].
  - rewrite build_decoder_dict_three, H0. simpl. rewrite H1. simpl.
    rewrite H2. reflexivity.
  - intros s b Hin. pose proof (Hrange m s b Rm Hin).
    rewrite Out2 by (intros; lia). rewrite Out1 by (intros; lia).
    apply In0. exact Hin.
  - intros s b Hin. pose proof (Hrange c s b Rc Hin).
    rewrite Out2 by (intros; lia). apply In1. exact Hin.
  - intros s b Hin. destruct (In2 s b Hin) as (Ha & Hb & Hc). auto.
Qed.

Lemma registry_holds_tables_witness :
  exists reg,
    build_decoder_dict [[(4, Auth)]; []; [(4, DataframeQos); (7, Beacon)]]
    = Ok reg /\
    reg !! (16 + 4) = Some Auth /\
    reg !! (64 + 4 + 128) = Some DataframeQosSecured.
Proof.
  destruct (registry_holds_tables
              [(4, Auth)] [] [(4, DataframeQos); (7, Beacon)])
    as (reg & Hb & Hm & _ & Hd).
  - repeat (apply Forall_cons; split); try apply Forall_nil_2;
      try split; try (refine (bool_decide_unpack _ _); vm_compute; exact I);
      repeat (apply Forall_cons; split); try apply Forall_nil_2; simpl; lia.
  - exists reg. split; [exact Hb|]. split.
    + apply Hm. apply list_elem_of_here.
    + apply (Hd 4 DataframeQos); [apply list_elem_of_here | reflexivity].
Defined.

Lemma register_item_origin pos reg s b reg' k v :
  register_item pos reg (s, b) = Ok reg' ->
  reg' !! k = Some v ->
  reg !! k = Some v \/ entry_from pos s b k v.
Proof.
  unfold register_item, entry_from, build_key.
  destruct (py_getitem TYPE_FACTORS pos) as [tf|e] eqn:Htf; [|discriminate].
  change (py_getitem TYPE_FACTORS 2) with (Ok (A:=Z) 64).
  unfold TYPE_FACTOR_PROTECTED. simpl.
  assert (Hplain : k = tf + s -> Ok (A:=Z) (tf + s + 0) = Ok k).
  { intros ->. f_equal. lia. }
  destruct (decide (pos = 2)) as [->|Hpos].
  - injection Htf as <-.
    destruct (decide (b = Dataframe)) as [->|Hb1];
      [|destruct (decide (b = DataframeQos)) as [->|Hb2]];
      intros Hreg Hk; injection Hreg as <-;
      rewrite ?lookup_insert in Hk; repeat case_decide;
      try (left; exact Hk);
      injection Hk as <-; subst k; right;
      first [ left; split; [f_equal; lia | reflexivity]
            | right; split; [reflexivity|]; split; [reflexivity|]; auto ].
  - intros Hreg Hk. injection Hreg as <-.
    rewrite lookup_insert in Hk. case_decide.
    + injection Hk as <-. right. left. split; [apply Hplain; auto|reflexivity].
    + left. exact Hk.
Qed.

Lemma for_each_register_origin pos items reg reg' k v :
  for_each (register_item pos) items reg = Ok reg' ->
  reg' !! k = Some v ->
  reg !! k = Some v \/ exists s b, (s, b) ∈ items /\ entry_from pos s b k v.
Proof.
  revert reg. induction items as [|[s0 b0] items IH]; intros reg Hrun Hk.
  - injection Hrun as <-. left. exact Hk.
  - rewrite for_each_cons in Hrun.
    destruct (register_item pos reg (s0, b0)) as [reg1|e] eqn:H1;
      [|discriminate]. simpl in Hrun.
    destruct (IH reg1 Hrun Hk) as [Hk1|(s & b & Hin & He)].
    + destruct (register_item_origin _ _ _ _ _ _ _ H1 Hk1) as [Hk0|He].
      * left. exact Hk0.
      * right. exists s0, b0. split; [apply list_elem_of_here | exact He].
    + right. exists s, b. split; [apply list_elem_of_further; exact Hin|].
      exact He.
Qed.

Lemma for_each_dict_origin (ptables : list (Z * list (Z * body))) reg reg' k v :
  for_each register_dict ptables reg = Ok reg' ->
  reg' !! k = Some v ->
  reg !! k = Some v \/
  exists pos tbl s b,
    (pos, tbl) ∈ ptables /\ (s, b) ∈ tbl /\ entry_from pos s b k v.
Proof.
  revert reg. induction ptables as [|[pos tbl] ptables IH]; intros reg Hrun Hk.
  - injection Hrun as <-. left. exact Hk.
  - rewrite for_each_cons in Hrun.
    destruct (register_dict reg (pos, tbl)) as [reg1|e] eqn:H1;
      [|discriminate]. simpl in Hrun.
    destruct (IH reg1 Hrun Hk) as [Hk1|(p & t & s & b & Hp & Hin & He)].
    + unfold register_dict in H1. simpl in H1.
      destruct (for_each_register_origin _ _ _ _ _ _ H1 Hk1)
        as [Hk0|(s & b & Hin & He)].
      * left. exact Hk0.
      * right. exists pos, tbl, s, b.
        split; [apply list_elem_of_here | auto].
    + right. exists p, t, s, b.
      split; [apply list_elem_of_further; exact Hp | auto].
Qed.

(** X10: the registry holds nothing but what the tables give: whenever
    the two loops run to completion on a list of tables, every entry of
    the result is the plain entry of some item of some table at its
    unprotected key, or the secured variant of a [Dataframe] or
    [DataframeQos] item of the table at position 2 at its protected
    key. *)
Theorem registry_entries_from_tables (tables : list (list (Z * body)))
  (reg : gmap Z body) (k : Z) (v : body)
  (Hbuild : build_decoder_dict tables = Ok reg)
  (Hk : reg !! k = Some v) :
  exists pos tbl s b,
    (pos, tbl) ∈ enumerate tables /\ (s, b) ∈ tbl /\ entry_from pos s b k v.
Proof.
  destruct (for_each_dict_origin _ _ _ _ _ Hbuild Hk) as [He|H].
  - rewrite lookup_empty in He. discriminate.
  - exact H.
Qed.

Lemma registry_entries_from_tables_witness :
  exists pos tbl s b,
    (pos, tbl) ∈ enumerate dicts /\ (s, b) ∈ tbl /\
    entry_from pos s b 204 DataframeQosSecured.
Proof.
  apply (registry_entries_from_tables dicts decoder_dict_complete);
    reflexivity.
Defined.

Lemma result_bind_assoc {A B C : Type} (r : result A) (f : A -> result B)
  (g : B -> result C) :
  (r ≫= f) ≫= g = r ≫= (fun a => f a ≫= g).
Proof. destruct r; reflexivity. Qed.

Lemma register_item_comm pos reg k1 v1 k2 v2 :
  k1 <> k2 -> 0 <= k1 < 128 -> 0 <= k2 < 128 ->
  (register_item pos reg (k1, v1) ≫= fun r => register_item pos r (k2, v2)) =
  (register_item pos reg (k2, v2) ≫= fun r => register_item pos r (k1, v1)).
Proof.
  intros Hne H1 H2. unfold register_item.
  destruct (py_getitem TYPE_FACTORS pos) as [tf|e] eqn:Htf; [|reflexivity].
  change (py_getitem TYPE_FACTORS 2) with (Ok (A:=Z) 64).
  unfold TYPE_FACTOR_PROTECTED. simpl.
  destruct (decide (pos = 2)) as [->|Hpos].
  - injection Htf as <-.
    repeat case_decide; simpl; f_equal; apply map_eq; intros i;
      rewrite !lookup_insert; repeat case_decide; try lia; reflexivity.
  - simpl. f_equal. apply insert_insert_ne. lia.
Qed.

Lemma for_each_register_perm pos (items items' : list (Z * body)) reg :
  items ≡ₚ items' ->
  NoDup items.*1 ->
  Forall (fun kv => 0 <= kv.1 < 128) items ->
  for_each (register_item pos) items reg =
  for_each (register_item pos) items' reg.
Proof.
  intros Hperm. revert reg.
  induction Hperm as [|x l l' Hperm IH|[k1 v1] [k2 v2] l|l l' l'' H1 IH1 H2 IH2];
    intros reg Hnd Hrange.
  - reflexivity.
  - simpl. destruct (register_item pos reg x); [|reflexivity]. simpl.
    apply IH.
    + apply NoDup_cons in Hnd as [_ Hnd]. exact Hnd.
    + apply Forall_cons in Hrange as [_ Hrange]. exact Hrange.
  - simpl.
    rewrite <- !(result_bind_assoc _ _ (for_each (register_item pos) l)).
    f_equal. apply register_item_comm.
    + apply NoDup_cons in Hnd as [Hnin _]. simpl in Hnin.
      intros ->. apply Hnin. apply list_elem_of_here.
    + apply Forall_cons in Hrange as [Hr _]. exact Hr.
    + apply Forall_cons in Hrange as [_ Hrange].
      apply Forall_cons in Hrange as [Hr _]. exact Hr.
  - rewrite IH1 by assumption. apply IH2.
    + rewrite <- H1. exact Hnd.
    + rewrite <- H1. exact Hrange.
Qed.

Lemma decoder_keys_distinct :
  NoDup m_decoder.*1 /\ NoDup c_decoder.*1 /\ NoDup d_decoder.*1.
Proof. repeat split; refine (bool_decide_unpack _ _); vm_compute; exact I. Qed.

Lemma decoder_keys_range :
  Forall (Forall (fun kv : Z * body => 0 <= kv.1 <= 15)) dicts.
Proof. repeat constructor; simpl; cbv; discriminate. Qed.

Lemma build_decoder_dict_perm (m c d m' c' d' : list (Z * body)) :
  m' ≡ₚ m -> c' ≡ₚ c -> d' ≡ₚ d ->
  Forall (fun tbl : list (Z * body) =>
            NoDup tbl.*1 /\ Forall (fun kv => 0 <= kv.1 < 128) tbl) [m; c; d] ->
  build_decoder_dict [m'; c'; d'] = build_decoder_dict [m; c; d].
Proof.
  intros Hm Hc Hd Hok.
  apply Forall_cons in Hok as [[Nm Rm] Hok].
  apply Forall_cons in Hok as [[Nc Rc] Hok].
  apply Forall_cons in Hok as [[Nd Rd] _].
  unfold build_decoder_dict, enumerate, register_dict. simpl.
  change (Z.of_nat 0) with 0. change (Z.of_nat 1) with 1.
  change (Z.of_nat 2) with 2.
  rewrite (for_each_register_perm 0 m m') by (assumption || by symmetry).
  destruct (for_each (register_item 0) m' ∅) as [r0|e]; [|reflexivity]. simpl.
  rewrite (for_each_register_perm 1 c c') by (assumption || by symmetry).
  destruct (for_each (register_item 1) c' r0) as [r1|e]; [|reflexivity]. simpl.
  rewrite (for_each_register_perm 2 d d') by (assumption || by symmetry).
  reflexivity.
Qed.

Lemma build_decoder_dict_any_order m' c' d' :
  m' ≡ₚ m_decoder -> c' ≡ₚ c_decoder -> d' ≡ₚ d_decoder ->
  build_decoder_dict [m'; c'; d'] = Ok decoder_dict_complete.
Proof.
  intros Hm Hc Hd. rewrite <- build_decoder_dict_ok.
  apply build_decoder_dict_perm; try assumption.
  destruct decoder_keys_distinct as (Nm & Nc & Nd).
  pose proof decoder_keys_range as Hr.
  assert (Hw : forall l : list (Z * body),
             Forall (fun kv => 0 <= kv.1 <= 15) l ->
             Forall (fun kv => 0 <= kv.1 < 128) l).
  { intros l Hl. eapply Forall_impl; [exact Hl|]. intros kv. simpl. lia. }
  apply Forall_cons in Hr as [Rm Hr]. apply Forall_cons in Hr as [Rc Hr].
  apply Forall_cons in Hr as [Rd _].
  repeat (apply Forall_cons; split; [split; auto|]). apply Forall_nil_2.
Qed.


(** X11: the registry does not depend on the order in which [items()]
    yields the entries of a table: for tables whose subtypes are pairwise
    distinct and lie in [0,128), running the two loops over any
    reordering of each table gives the same result. *)
Theorem registry_order_independent (m c d m' c' d' : list (Z * body))
  (Hm : m' ≡ₚ m) (Hc : c' ≡ₚ c) (Hd : d' ≡ₚ d)
  (Hok : Forall (fun tbl : list (Z * body) =>
                   NoDup tbl.*1 /\
                   Forall (fun kv => 0 <= kv.1 < 128) tbl) [m; c; d]) :
  build_decoder_dict [m'; c'; d'] = build_decoder_dict [m; c; d].
Proof. apply build_decoder_dict_perm; assumption. Qed.

Lemma registry_order_independent_witness :
  build_decoder_dict [reverse m_decoder; reverse c_decoder; reverse d_decoder]
  = build_decoder_dict [m_decoder; c_decoder; d_decoder].
Proof.
  apply registry_order_independent; try apply reverse_Permutation.
  destruct decoder_keys_distinct as (Nm & Nc & Nd).
  repeat (apply Forall_cons; split; [split; [assumption|]|]);
    try apply Forall_nil_2;
    repeat (apply Forall_cons; split; [cbv; intuition discriminate|]);
    apply Forall_nil_2.
Defined.

(** ** More on the information-element loop *)

Local Open Scope nat_scope.

Lemma unpack_ies_nil : _unpack_ies [] = Some (Ok []).
Proof. reflexivity. Qed.

Lemma unpack_ies_prefix es rest :
  Forall wf_ie es ->
  _unpack_ies (ies_wire es ++ rest) =
  (fmap (M:=result) (app (ie_parsed <$> es)) <$> _unpack_ies rest).
Proof.
  induction 1 as [|e es He _ IH].
  - simpl. destruct (_unpack_ies rest) as [[l|err]|]; reflexivity.
  - rewrite ies_wire_cons, unpack_ies_cons, IH by exact He.
    destruct (_unpack_ies rest) as [[l|err]|]; reflexivity.
Qed.

Lemma concat_parsed es : concat (ie_bytes <$> (ie_parsed <$> es)) = ies_wire es.
Proof. unfold ies_wire. rewrite <- list_fmap_compose. reflexivity. Qed.

(** Every buffer is a run of whole elements followed by nothing, by a
    lone id byte, or by an element whose payload is cut short. *)
Lemma ies_decompose buf :
  exists es tail,
    Forall wf_ie es /\ buf = ies_wire es ++ tail /\
    (tail = [] \/
     (exists idb, tail = [idb]) \/
     (exists idb lenb partial,
         tail = idb :: lenb :: partial /\
         length partial < Z.to_nat (byte_val lenb))).
Proof.
  remember (length buf) as n eqn:Hn. revert buf Hn.
  induction n as [n IH] using lt_wf_ind. intros buf Hn.
  destruct buf as [|idb [|lenb rest]].
  - exists [], []. auto.
  - exists [], [idb]. split; [constructor|]. split; [reflexivity|].
    right. left. eauto.
  - destruct (le_lt_dec (Z.to_nat (byte_val lenb)) (length rest)) as [Hle|Hlt].
    + destruct (IH (length (drop (Z.to_nat (byte_val lenb)) rest)))
        with (buf := drop (Z.to_nat (byte_val lenb)) rest)
        as (es & tail & Hwf & Hbuf & Htail).
      * subst n. simpl. rewrite length_drop. lia.
      * reflexivity.
      * exists (mk_raw idb lenb (take (Z.to_nat (byte_val lenb)) rest) :: es),
          tail.
        split; [|split; [|exact Htail]].
        -- constructor; [|exact Hwf]. unfold wf_ie. simpl.
           rewrite length_take. lia.
        -- rewrite ies_wire_cons, <- Hbuf. unfold ie_wire. simpl.
           rewrite take_drop. reflexivity.
    + exists [], (idb :: lenb :: rest).
      split; [constructor|]. split; [reflexivity|].
      right. right. exists idb, lenb, rest. auto.
Qed.

(** X12: parsing goes element by element: on a buffer that starts with
    whole elements, [_unpack_ies] gives the objects of these elements
    followed by whatever it gives on the rest of the buffer, and raises
    exactly when it raises on the rest. *)
Theorem unpack_ies_whole_prefix (es : list raw_ie) (rest : list byte)
  (Hwf : Forall wf_ie es) :
  _unpack_ies (ies_wire es ++ rest) =
  (fmap (M:=result) (app (ie_parsed <$> es)) <$> _unpack_ies rest).
Proof. apply unpack_ies_prefix. exact Hwf. Qed.

Lemma unpack_ies_whole_prefix_witness :
  _unpack_ies (ies_wire [mk_raw x03 x01 [x06]] ++ [x00; x02; x41]) =
  (fmap (M:=result) (app (ie_parsed <$> [mk_raw x03 x01 [x06]]))
   <$> _unpack_ies [x00; x02; x41]).
Proof.
  apply (unpack_ies_whole_prefix [mk_raw x03 x01 [x06]] [x00; x02; x41]).
  repeat constructor.
Defined.

(** X13: no byte is lost, repeated or invented: when [_unpack_ies]
    returns, the bytes of the returned objects, put end to end, are the
    buffer. *)
Theorem unpack_ies_conserves_bytes (buf : list byte) (l : list ie_packet)
  (Hl : _unpack_ies buf = Some (Ok l)) :
  concat (ie_bytes <$> l) = buf.
Proof.
  destruct (ies_decompose buf) as (es & tail & Hwf & -> & Htail).
  rewrite unpack_ies_prefix in Hl by exact Hwf.
  destruct Htail as [->|[(idb & ->)|(idb & lenb & partial & -> & Hshort)]].
  - rewrite unpack_ies_nil in Hl. injection Hl as <-.
    rewrite !app_nil_r. apply concat_parsed.
  - rewrite unpack_ies_no_len_byte in Hl. discriminate.
  - rewrite unpack_ies_short_payload in Hl by exact Hshort.
    injection Hl as <-.
    rewrite fmap_app, concat_app, concat_parsed. simpl.
    rewrite app_nil_r. reflexivity.
Qed.

Lemma unpack_ies_conserves_bytes_witness :
  concat (ie_bytes <$> [mk_ie IE [x00; x01; x41]; mk_ie DS [x03; x05; x06]])
  = [x00; x01; x41; x03; x05; x06].
Proof.
  apply (unpack_ies_conserves_bytes [x00; x01; x41; x03; x05; x06]).
  reflexivity.
Defined.

Lemma ie_parsed_whole e : wf_ie e -> whole_element (ie_parsed e).
Proof.
  destruct e as [idb lenb payload]. unfold wf_ie, whole_element, ie_len,
    ie_payload. simpl. intros H. rewrite ?drop_0, H. f_equal.
  pose proof (byte_val_range lenb). lia.
Qed.

(** X14: [_unpack_ies] raises on exactly one kind of buffer: the one
    that, after a run of whole elements, ends with a lone id byte; the
    exception is then [IndexError], from reading the missing length
    byte. *)
Theorem unpack_ies_raises_iff (buf : list byte) (e : exn) :
  _unpack_ies buf = Some (Raise e) <->
  e = IndexError /\
  exists es idb, Forall wf_ie es /\ buf = ies_wire es ++ [idb].
Proof.
  split.
  - intros Hr.
    destruct (ies_decompose buf) as (es & tail & Hwf & -> & Htail).
    rewrite unpack_ies_prefix in Hr by exact Hwf.
    destruct Htail as [->|[(idb & ->)|(idb & lenb & partial & -> & Hshort)]].
    + rewrite unpack_ies_nil in Hr. discriminate.
    + rewrite unpack_ies_no_len_byte in Hr. injection Hr as <-. eauto.
    + rewrite unpack_ies_short_payload in Hr by exact Hshort. discriminate.
  - intros (-> & es & idb & Hwf & ->).
    rewrite unpack_ies_prefix by exact Hwf.
    rewrite unpack_ies_no_len_byte. reflexivity.
Qed.

(** X15: what a returned list looks like: every object starts with its
    id byte and its length byte, has the class [ie_decoder] gives for
    that id (or [IE]), and carries no more payload than the length byte
    says; every object but the last carries exactly that much. *)
Theorem unpack_ies_elements (buf : list byte) (l : list ie_packet)
  (Hl : _unpack_ies buf = Some (Ok l)) :
  Forall (fun p =>
            exists idb lenb payload,
              ie_bytes p = idb :: lenb :: payload /\
              ie_parser p = ie_parser_for (byte_val idb) /\
              length payload <= Z.to_nat (byte_val lenb)) l /\
  (forall i p, l !! i = Some p -> S i < length l -> whole_element p).
Proof.
  destruct (ies_decompose buf) as (es & tail & Hwf & -> & Htail).
  rewrite unpack_ies_prefix in Hl by exact Hwf.
  assert (Hes : Forall (fun p =>
            exists idb lenb payload,
              ie_bytes p = idb :: lenb :: payload /\
              ie_parser p = ie_parser_for (byte_val idb) /\
              length payload <= Z.to_nat (byte_val lenb)) (ie_parsed <$> es)).
  { apply Forall_fmap. eapply Forall_impl; [exact Hwf|].
    intros [idb lenb payload] He. exists idb, lenb, payload.
    unfold wf_ie in He. simpl in *. repeat split. lia. }
  assert (Hwhole : Forall whole_element (ie_parsed <$> es)).
  { apply Forall_fmap. eapply Forall_impl; [exact Hwf|].
    intros e He. apply ie_parsed_whole. exact He. }
  destruct Htail as [->|[(idb & ->)|(idb & lenb & partial & -> & Hshort)]].
  - rewrite unpack_ies_nil in Hl. injection Hl as <-.
    rewrite app_nil_r. split; [exact Hes|].
    intros i p Hi _. rewrite Forall_lookup in Hwhole. apply (Hwhole i p Hi).
  - rewrite unpack_ies_no_len_byte in Hl. discriminate.
  - rewrite unpack_ies_short_payload in Hl by exact Hshort.
    injection Hl as <-. split.
    + apply Forall_app. split; [exact Hes|].
      apply Forall_cons. split; [|apply Forall_nil_2].
      exists idb, lenb, partial. repeat split. lia.
    + intros i p Hi Hlast. rewrite length_app in Hlast. simpl in Hlast.
      rewrite lookup_app_l in Hi by lia.
      rewrite Forall_lookup in Hwhole. apply (Hwhole i p Hi).
Qed.

Lemma unpack_ies_elements_witness : whole_element (mk_ie IE [x00; x01; x41]).
Proof.
  apply (proj2 (unpack_ies_elements
                  [x00; x01; x41; x03; x05; x06]
                  [mk_ie IE [x00; x01; x41]; mk_ie DS [x03; x05; x06]]
                  eq_refl) 0); [reflexivity | simpl; lia].
Defined.

(** ** The body classes *)

Local Open Scope Z_scope.

Lemma params_offset (cls : body) (buf : list byte) :
  match body_dissect cls buf with
  | Some rest =>
      last (body_hdr cls) = Some ("params", Fmt_None) /\
      rest = drop (hdr_size (body_hdr cls)) buf
  | None => "params" ∉ (body_hdr cls).*1
  end.
Proof.
  destruct cls; simpl; try (split; reflexivity);
    refine (bool_decide_unpack _ _); vm_compute; exact I.
Qed.

(** X16: in every body class with a [_dissect] method, the offset at
    which the method cuts the buffer for [_unpack_ies] is the size of the
    fixed fields declared in [__hdr__] before the dynamic field [params],
    which is the last one; the classes without the method have no
    [params] field. *)
Theorem params_offset_is_header_size (cls : body) (buf : list byte) :
  match body_dissect cls buf with
  | Some rest =>
      last (body_hdr cls) = Some ("params", Fmt_None) /\
      rest = drop (hdr_size (body_hdr cls)) buf
  | None => "params" ∉ (body_hdr cls).*1
  end.
Proof. apply params_offset. Qed.

Lemma registry_protected_data_elem s b :
  (s, b) ∈ d_decoder ->
  exists v, secured_of b = Some v /\
            decoder_dict_complete !! (64 + s + 128) = Some v.
Proof.
  intros Hin. unfold d_decoder in Hin.
  elem_of_cases Hin; injection Hin as -> ->; eexists;
    (split; [reflexivity|]); vm_compute; reflexivity.
Qed.

Lemma enumerate_dicts :
  enumerate dicts = [(0, m_decoder); (1, c_decoder); (2, d_decoder)].
Proof. reflexivity. Qed.

(** Every entry of [decoder_dict_complete] comes from an item of one of
    the three tables. *)
Lemma registry_origin k v :
  decoder_dict_complete !! k = Some v ->
  exists pos tbl s b,
    (pos, tbl) ∈ enumerate dicts /\ (s, b) ∈ tbl /\ entry_from pos s b k v.
Proof.
  intros Hk. pose proof build_decoder_dict_ok as Hb.
  destruct (for_each_dict_origin _ _ _ _ _ Hb Hk) as [He|H].
  - rewrite lookup_empty in He. discriminate.
  - exact H.
Qed.

Lemma dicts_subtype_range pos tbl s b :
  (pos, tbl) ∈ enumerate dicts -> (s, b) ∈ tbl ->
  0 <= pos <= 2 /\ 0 <= s <= 15 /\ py_getitem dicts pos = Ok tbl.
Proof.
  intros Hpos Hin. pose proof decoder_keys_range as Hr.
  apply Forall_cons in Hr as [Rm Hr]. apply Forall_cons in Hr as [Rc Hr].
  apply Forall_cons in Hr as [Rd _].
  rewrite Forall_forall in Rm, Rc, Rd.
  rewrite enumerate_dicts in Hpos.
  elem_of_cases Hpos; injection Hpos as -> ->;
    (split; [lia|]); (split; [|reflexivity]).
  - apply (Rm _ Hin).
  - apply (Rc _ Hin).
  - apply (Rd _ Hin).
Qed.

Lemma registry_plain_elem pos tbl s b :
  (pos, tbl) ∈ enumerate dicts -> (s, b) ∈ tbl ->
  exists k, build_key pos s 0 = Ok k /\ decoder_dict_complete !! k = Some b.
Proof.
  intros Hpos Hin. rewrite enumerate_dicts in Hpos.
  elem_of_cases Hpos; injection Hpos as -> ->;
    unfold m_decoder, c_decoder, d_decoder in Hin;
    elem_of_cases Hin; injection Hin as -> ->;
    eexists; (split; [reflexivity|]); vm_compute; reflexivity.
Qed.

Lemma registry_key_range k v :
  decoder_dict_complete !! k = Some v -> 16 <= k <= 207.
Proof.
  intros Hk.
  destruct (registry_origin _ _ Hk) as (pos & tbl & s & b & Hpos & Hin & He).
  destruct (dicts_subtype_range _ _ _ _ Hpos Hin) as (Rp & Rs & _).
  pose proof (type_factor_range pos Rp).
  destruct He as [[Hb _]|(-> & Hb & _)];
    rewrite build_key_ok in Hb by lia; injection Hb as Hb;
    change (Z.shiftl 16 2) with 64 in *; repeat case_decide; lia.
Qed.

(** X17: the class registered for a data subtype with the protected bit
    set has the fixed fields of the class registered without it, followed
    by the eight-byte field [sec_param]. *)
Theorem secured_header_extends_base (s : Z) (b v : body)
  (Hb : decoder_dict_complete !! (64 + s) = Some b)
  (Hv : decoder_dict_complete !! (64 + s + 128) = Some v) :
  body_hdr v = body_hdr b ++ [("sec_param", Fmt_Q)] /\
  hdr_size (body_hdr v) = (hdr_size (body_hdr b) + 8)%nat.
Proof.
  destruct (registry_origin _ _ Hv) as (pos & tbl & s' & b' & Hpos & Hin & He).
  destruct (dicts_subtype_range _ _ _ _ Hpos Hin) as (Rp & Rs & _).
  assert (Hs : s = s' /\ pos = 2 /\ secured_of b' = Some v).
  { destruct He as [[Hk _]|(-> & Hk & Hbv)];
      rewrite build_key_ok in Hk by lia; injection Hk as Hk.
    - pose proof (type_factor_range pos Rp).
      pose proof (registry_key_range _ _ Hb). repeat case_decide; lia.
    - change (Z.shiftl 16 2) with 64 in Hk. repeat case_decide; try lia.
      split; [lia|]. split; [reflexivity|].
      destruct Hbv as [[-> ->]|[-> ->]]; reflexivity. }
  destruct Hs as (<- & -> & Hsec).
  destruct (registry_plain_elem _ _ _ _ Hpos Hin) as (k & Hk & Hreg).
  rewrite build_key_ok in Hk by lia. injection Hk as <-.
  change (Z.shiftl 16 2) with 64 in Hreg.
  rewrite Z.add_0_r, Hb in Hreg. injection Hreg as ->.
  destruct b'; try discriminate Hsec; injection Hsec as <-;
    split; reflexivity.
Qed.

Lemma secured_header_extends_base_witness :
  body_hdr DataframeQosSecured =
    body_hdr DataframeQos ++ [("sec_param", Fmt_Q)] /\
  hdr_size (body_hdr DataframeQosSecured) =
    (hdr_size (body_hdr DataframeQos) + 8)%nat.
Proof.
  apply (secured_header_extends_base 12 DataframeQos DataframeQosSecured);
    reflexivity.
Defined.

Lemma dissect_handler hi lo tail k :
  dispatch_key (256 * byte_val hi + byte_val lo) = Ok k ->
  _dissect (hi :: lo :: tail) =
  Ok (256 * byte_val hi + byte_val lo, _parse_handler k (drop 2 tail)).
Proof. intros Hk. rewrite dissect_header, Hk. reflexivity. Qed.

(** X18: which frames get a body class.  [_dissect] selects the class
    [cls] for a frame exactly when the protected bit is clear and the
    table of the frame's type lists [cls] for its subtype, or the frame
    is a data frame with the protected bit set and [cls] is the secured
    class of the one the data table lists for its subtype.  Every other
    frame whose type is not 3 keeps its body as raw bytes. *)
Theorem dissect_handler_rule (hi lo : byte) (tail : list byte) (cls : body) :
  (exists data,
      _dissect (hi :: lo :: tail) =
      Ok (256 * byte_val hi + byte_val lo, BodyHandler cls data)) <->
  (_get_protected (256 * byte_val hi + byte_val lo) = 0 /\
   exists tbl,
     py_getitem dicts (_get_type (256 * byte_val hi + byte_val lo)) = Ok tbl /\
     (_get_subtype (256 * byte_val hi + byte_val lo), cls) ∈ tbl) \/
  (_get_type (256 * byte_val hi + byte_val lo) = 2 /\
   _get_protected (256 * byte_val hi + byte_val lo) = 1 /\
   exists b,
     (_get_subtype (256 * byte_val hi + byte_val lo), b) ∈ d_decoder /\
     secured_of b = Some cls).
Proof.
  set (w := 256 * byte_val hi + byte_val lo).
  pose proof (fget_range type w) as Rt.
  pose proof (fget_range subtype w) as Rs.
  pose proof (fget_range protected w) as Rp.
  simpl in Rt, Rs, Rp. change (2 ^ 2) with 4 in Rt.
  change (2 ^ 4) with 16 in Rs. change (2 ^ 1) with 2 in Rp.
  split.
  - intros (data & Hd).
    destruct (dispatch_key w) as [k|e] eqn:Hk.
    2: { rewrite dissect_header in Hd. fold w in Hd. rewrite Hk in Hd.
         discriminate. }
    rewrite (dissect_handler hi lo tail k Hk) in Hd. injection Hd as Hd.
    unfold _parse_handler in Hd.
    destruct (decoder_dict_complete !! k) as [v|] eqn:Hreg; [|discriminate].
    injection Hd as -> _.
    destruct (dispatch_key_type w) as [_ Ht]. specialize (Ht k Hk).
    destruct (registry_origin _ _ Hreg)
      as (pos & tbl & s & b & Hpos & Hin & He).
    destruct (dicts_subtype_range _ _ _ _ Hpos Hin) as (Rpos & Rsub & Htbl).
    unfold dispatch_key in Hk.
    destruct He as [[Hk' ->]|(-> & Hk' & Hbv)].
    + destruct (build_key_injective (_get_type w) (_get_subtype w)
                  (_get_protected w) pos s 0 k) as (Et & Es & Ep);
        try assumption; try lia.
      left. split; [exact Ep|]. exists tbl. rewrite Et, Es. auto.
    + destruct (build_key_injective (_get_type w) (_get_subtype w)
                  (_get_protected w) 2 s 1 k) as (Et & Es & Ep);
        try assumption; try lia.
      right. split; [exact Et|]. split; [exact Ep|]. exists b.
      rewrite Es. split.
      * rewrite enumerate_dicts in Hpos.
        elem_of_cases Hpos; try discriminate Hpos.
        injection Hpos as ->. exact Hin.
      * destruct Hbv as [[-> ->]|[-> ->]]; reflexivity.
  - intros [(Hp & tbl & Htbl & Hin)|(Ht & Hp & b & Hin & Hsec)].
    + assert (Hpos : (_get_type w, tbl) ∈ enumerate dicts).
      { rewrite enumerate_dicts.
        generalize dependent (_get_type w). intros t Rt Htbl.
        assert (Ht : 0 <= t <= 3) by lia. clear Rt.
        Z_enum t; vm_compute in Htbl; try discriminate Htbl;
          injection Htbl as <-;
          repeat (first [apply list_elem_of_here | apply list_elem_of_further]). }
      destruct (registry_plain_elem _ _ _ _ Hpos Hin) as (k & Hk & Hreg).
      exists (drop 2 tail). rewrite (dissect_handler hi lo tail k).
      * unfold _parse_handler. rewrite Hreg. reflexivity.
      * fold w. unfold dispatch_key. rewrite Hp. exact Hk.
    + destruct (registry_protected_data_elem _ _ Hin) as (v & Hv & Hreg).
      rewrite Hsec in Hv. injection Hv as <-.
      exists (drop 2 tail).
      rewrite (dissect_handler hi lo tail (64 + _get_subtype w + 128)).
      * unfold _parse_handler. rewrite Hreg. reflexivity.
      * fold w. unfold dispatch_key. rewrite Ht, Hp. reflexivity.
Qed.

(** X19: a management frame, taken end to end.  For a frame of type 0
    with the protected bit clear whose subtype the management table maps
    to a class with a [params] field, made of the 4-byte header, the
    fixed fields of that class and a run of whole elements: [_dissect]
    selects the class over the bytes after the header, the class's
    [_dissect] hands exactly the element bytes to [_unpack_ies], and
    [_unpack_ies] returns the objects of these elements. *)
Theorem management_frame_elements (hi lo d0 d1 : byte)
  (fixed : list byte) (es : list raw_ie) (cls : body)
  (Ht : _get_type (256 * byte_val hi + byte_val lo) = 0)
  (Hp : _get_protected (256 * byte_val hi + byte_val lo) = 0)
  (Hcls : (_get_subtype (256 * byte_val hi + byte_val lo), cls) ∈ m_decoder)
  (Hparams : ("params", Fmt_None) ∈ body_hdr cls)
  (Hfixed : length fixed = hdr_size (body_hdr cls))
  (Hwf : Forall wf_ie es) :
  _dissect (hi :: lo :: d0 :: d1 :: fixed ++ ies_wire es) =
    Ok (256 * byte_val hi + byte_val lo,
        BodyHandler cls (fixed ++ ies_wire es)) /\
  body_dissect cls (fixed ++ ies_wire es) = Some (ies_wire es) /\
  body_dissect cls (fixed ++ ies_wire es) ≫= _unpack_ies =
    Some (Ok (ie_parsed <$> es)).
Proof.
  assert (Hpos : (0, m_decoder) ∈ enumerate dicts).
  { rewrite enumerate_dicts. apply list_elem_of_here. }
  destruct (registry_plain_elem _ _ _ _ Hpos Hcls) as (k & Hk & Hreg).
  assert (Hd : body_dissect cls (fixed ++ ies_wire es) = Some (ies_wire es)).
  { pose proof (params_offset cls (fixed ++ ies_wire es)) as Ho.
    destruct (body_dissect cls (fixed ++ ies_wire es)) as [rest|].
    - destruct Ho as [_ ->]. rewrite <- Hfixed, drop_app_length. reflexivity.
    - exfalso. apply Ho. apply list_elem_of_fmap.
      exists ("params", Fmt_None). auto. }
  split; [|split; [exact Hd|]].
  - rewrite (dissect_handler hi lo _ k).
    + unfold _parse_handler. rewrite Hreg. reflexivity.
    + unfold dispatch_key. rewrite Ht, Hp. exact Hk.
  - rewrite Hd. simpl.
    pose proof (unpack_ies_prefix es [] Hwf) as H.
    rewrite app_nil_r, unpack_ies_nil in H. rewrite H. simpl.
    rewrite app_nil_r. reflexivity.
Qed.

Lemma management_frame_elements_witness :
  _dissect (x80 :: x00 :: x00 :: x00 ::
            replicate 32 x00 ++ ies_wire [mk_raw x00 x01 [x41]]) =
    Ok (256 * byte_val x80 + byte_val x00,
        BodyHandler Beacon (replicate 32 x00 ++ ies_wire [mk_raw x00 x01 [x41]])).
Proof.
  apply (management_frame_elements x80 x00 x00 x00 (replicate 32 x00)
           [mk_raw x00 x01 [x41]] Beacon); try reflexivity.
  - apply list_elem_of_here.
  - repeat (first [apply list_elem_of_here | apply list_elem_of_further]).
  - repeat constructor.
Defined.
